(** * photobooth.py: a shallow embedding and its verified properties

    The development follows the layout of [photobooth.py]:

    - [Py]           the few Python built-ins the program relies on
                     ([str], [zfill], [int], slicing, [sort], [glob],
                     [os.path.dirname], [Image.thumbnail]);
    - [PictureList]  the file-name sequencer (class [PictureList]);
    - [Assemble]     the geometry of [Photobooth.assemble_pictures];
    - [Booth]        the controller (class [Photobooth]) in a state and
                     exception monad over an explicit model of the kiosk's
                     environment (display, camera, GPIO, clock, event queue).

    The definitions come first; the facts follow, component by component:
    [PyFacts], [PictureListFacts] and [PictureListSpec] for the sequencer,
    [AssembleSpec] for the composite, [BoothFacts], [CaptureSpec],
    [CountdownSpec], [SessionFacts], [SessionSpec] and [RunSpec] for the
    controller. *)

From Stdlib Require Import ZArith NArith QArith Qminmax Qround List Bool Lia Lqa.
From Stdlib Require Import Ascii String DecimalString.
Import ListNotations.

(* ===================================================================== *)
(** * Python built-ins used by the program *)
(* ===================================================================== *)

Module Py.

Open Scope string_scope.
Open Scope Z_scope.

(** Exceptions, as far as the [except] clauses of the program tell them
    apart.  [CameraException] is the camera module's error; [OtherException]
    is any other instance of [Exception] (its [repr] is kept);
    [KeyboardInterrupt] and [SystemExit] derive from [BaseException] only.
    The one other built-in class outside [Exception], [GeneratorExit], is
    raised inside generators only, of which the program has none. *)
Inductive exn : Type :=
| CameraException (message : string) (recoverable : bool)
| KeyboardInterrupt
| SystemExit (code : Z)
| OtherException (repr : string).

(** [str(n)] for an integer. *)
Definition str (n : Z) : string := NilEmpty.string_of_int (Z.to_int n).

(** A line break inside a message. *)
Definition nl : string := String "010"%char "".

(** [range(n)] *)
Definition range (n : Z) : list Z := map Z.of_nat (seq 0 (Z.to_nat n)).

(** ["c" * n] *)
Fixpoint repeat_string (s : string) (n : nat) : string :=
  match n with
  | O => ""
  | S n' => s ++ repeat_string s n'
  end.

(** [s.zfill(width)]: pad with zeros on the left, after a leading sign. *)
Definition zfill (width : nat) (s : string) : string :=
  if (width <=? String.length s)%nat then s
  else
    let zeros := repeat_string "0" (width - String.length s)%nat in
    match s with
    | String "+" r => String "+" (zeros ++ r)
    | String "-" r => String "-" (zeros ++ r)
    | _ => zeros ++ s
    end.

Definition is_digit (c : ascii) : bool :=
  (48 <=? N_of_ascii c)%N && (N_of_ascii c <=? 57)%N.

Definition digit_value (c : ascii) : Z := Z.of_N (N_of_ascii c) - 48.

(** The value of a string of decimal digits, most significant first. *)
Fixpoint int_digits (acc : Z) (s : string) : option Z :=
  match s with
  | "" => Some acc
  | String c s' =>
      if is_digit c then int_digits (10 * acc + digit_value c) s' else None
  end.

(** [int(s)] on an unsigned decimal literal; [None] stands for
    [ValueError]. *)
Definition int (s : string) : option Z :=
  match s with
  | "" => None
  | _ => int_digits 0 s
  end.

(** [s[-a:-b]] for [a >= b > 0]: Python clamps the start at 0, which is what
    the truncated subtraction does. *)
Definition slice_from_end (a b : nat) (s : string) : string :=
  let n := String.length s in
  substring (n - a)%nat ((n - b) - (n - a))%nat s.

(** [list.sort()] on strings: ascending in the code-point order.  The sorted
    list of a total order is unique up to equal elements, so an insertion
    sort computes what Python's sort does. *)
Fixpoint insert_sorted (x : string) (l : list string) : list string :=
  match l with
  | [] => [x]
  | y :: l' => if String.leb x y then x :: l else y :: insert_sorted x l'
  end.

Fixpoint sort (l : list string) : list string :=
  match l with
  | [] => []
  | x :: l' => insert_sorted x (sort l')
  end.

(** [l[-1]] *)
Definition last_item (l : list string) : option string :=
  match l with
  | [] => None
  | x :: l' => Some (List.last l' x)
  end.

(** ** [glob]

    Patterns are translated as [fnmatch] does for the two kinds of items the
    program builds: the character class ["[0-9]"] and literal characters.
    [has_magic] is [glob.has_magic]: the wildcards and other classes that
    are not modelled are excluded by asking [has_magic basename = false]. *)
Inductive pat_item : Type :=
| Lit (c : ascii)
| Digit.

Definition digit_class : string := "[0-9]".

Fixpoint drop (n : nat) (s : string) : string :=
  match n, s with
  | O, _ => s
  | S n', String _ s' => drop n' s'
  | S _, "" => ""
  end.

Fixpoint starts_with (p s : string) : bool :=
  match p, s with
  | "", _ => true
  | String c p', String d s' => Ascii.eqb c d && starts_with p' s'
  | String _ _, "" => false
  end.

Fixpoint translate (fuel : nat) (pat : string) : list pat_item :=
  match fuel with
  | O => []
  | S fuel' =>
      if starts_with digit_class pat
      then Digit :: translate fuel' (drop 5 pat)
      else match pat with
           | "" => []
           | String c pat' => Lit c :: translate fuel' pat'
           end
  end.

Fixpoint match_items (items : list pat_item) (name : string) : bool :=
  match items, name with
  | [], "" => true
  | Lit c :: items', String d name' => Ascii.eqb c d && match_items items' name'
  | Digit :: items', String d name' => is_digit d && match_items items' name'
  | _, _ => false
  end.

Definition fnmatch (pat name : string) : bool :=
  match_items (translate (String.length pat) pat) name.

Definition is_magic_char (c : ascii) : bool :=
  Ascii.eqb c "*" || Ascii.eqb c "?" || Ascii.eqb c "[".

Fixpoint has_magic (s : string) : bool :=
  match s with
  | "" => false
  | String c s' => is_magic_char c || has_magic s'
  end.

(** ** [Image.thumbnail] (PIL)

    The size computation of [Image.thumbnail(size)] as PIL has it (Pillow
    before 7.0): shrink to the box width if wider, then to the box height if
    still taller, never below one pixel; an image that fits is left alone.
    Sizes are positive integers, for which Python's [int(a * b / c)] is the
    integer quotient. *)
Definition thumbnail (img size : Z * Z) : Z * Z :=
  let '(x, y) := img in
  let '(x, y) :=
    if fst size <? x then (fst size, Z.max (y * fst size / x) 1) else (x, y) in
  let '(x, y) :=
    if snd size <? y then (Z.max (x * snd size / y) 1, snd size) else (x, y) in
  (x, y).

(** ** [os.path.dirname] (posixpath) *)

(** [p[:p.rfind('/')+1]] *)
Fixpoint head_to_last_slash (p : string) : string :=
  match p with
  | "" => ""
  | String c p' =>
      match head_to_last_slash p' with
      | "" => if Ascii.eqb c "/" then "/" else ""
      | h => String c h
      end
  end.

Fixpoint all_slashes (s : string) : bool :=
  match s with
  | "" => true
  | String c s' => Ascii.eqb c "/" && all_slashes s'
  end.

(** [s.rstrip('/')] *)
Fixpoint rstrip_slash (s : string) : string :=
  match s with
  | "" => ""
  | String c s' =>
      match rstrip_slash s' with
      | "" => if Ascii.eqb c "/" then "" else String c ""
      | r => String c r
      end
  end.

Definition dirname (p : string) : string :=
  let head := head_to_last_slash p in
  if negb (String.eqb head "") && negb (all_slashes head)
  then rstrip_slash head
  else head.

(** Results of operations that may raise. *)
Inductive result (A : Type) : Type :=
| Ok (a : A)
| Err (e : exn).

Arguments Ok {A} a.
Arguments Err {A} e.

End Py.

(* ===================================================================== *)
(** * class PictureList *)
(* ===================================================================== *)

Module PictureList.

Import Py.
Open Scope string_scope.
Open Scope Z_scope.

(** The part of the file system the class looks at: the paths that exist
    (files and directories alike, as [glob] and [os.path.exists] see them)
    and whether new directories can be created. *)
Record filesystem : Type := {
  entries : list string;
  read_only : bool
}.

Definition path_exists (fs : filesystem) (p : string) : bool :=
  existsb (String.eqb p) (entries fs).

(** [os.makedirs]: fails on the empty path and where nothing can be
    created. *)
Definition makedirs (d : string) (fs : filesystem) : result filesystem :=
  if String.eqb d "" then Err (OtherException "FileNotFoundError")
  else if read_only fs then Err (OtherException "PermissionError")
  else Ok {| entries := d :: entries fs; read_only := read_only fs |}.

Definition glob (pattern : string) (fs : filesystem) : list string :=
  filter (fnmatch pattern) (entries fs).

Record PictureList : Type := {
  basename : string;
  suffix : string;
  count_width : nat;
  counter : Z
}.

(** [PictureList.__init__]; the informational [print]s are left out. *)
Definition init (basename0 : string) (fs : filesystem)
  : result (PictureList * filesystem) :=
  let suffix0 := ".jpg" in
  let count_width0 := 5%nat in
  let dir := dirname basename0 in
  match (if negb (path_exists fs dir) then makedirs dir fs else Ok fs) with
  | Err e => Err e
  | Ok fs1 =>
      let count_pattern := repeat_string digit_class count_width0 in
      let pictures := glob (basename0 ++ count_pattern ++ suffix0) fs1 in
      if (List.length pictures =? 0)%nat then
        Ok ({| basename := basename0; suffix := suffix0;
               count_width := count_width0; counter := 0 |}, fs1)
      else
        match last_item (sort pictures) with
        | None => Err (OtherException "IndexError")
        | Some last_picture =>
            match int (slice_from_end (count_width0 + String.length suffix0)
                                      (String.length suffix0) last_picture) with
            | None => Err (OtherException "ValueError")
            | Some n =>
                Ok ({| basename := basename0; suffix := suffix0;
                       count_width := count_width0; counter := n |}, fs1)
            end
        end
  end.

Definition get (self : PictureList) (count : Z) : string :=
  basename self ++ zfill (count_width self) (str count) ++ suffix self.

Definition get_last (self : PictureList) : string :=
  get self (counter self).

Definition set_counter (self : PictureList) (n : Z) : PictureList :=
  {| basename := basename self; suffix := suffix self;
     count_width := count_width self; counter := n |}.

(** [get_next] mutates the object: the new state is returned with the
    path. *)
Definition get_next (self : PictureList) : string * PictureList :=
  let self' := set_counter self (counter self + 1) in
  (get self' (counter self'), self').

(** [name] is the path of picture number [n]: the basename, five decimal
    digits that read [n], and the suffix. *)
Definition numbered (basename0 : string) (n : Z) (name : string) : Prop :=
  exists ds, String.length ds = 5%nat /\ int_digits 0 ds = Some n /\
             name = basename0 ++ ds ++ ".jpg".

(** The number [__init__] reads off the name of a picture. *)
Definition number_of (name : string) : Z :=
  match int (slice_from_end 9 4 name) with
  | Some n => n
  | None => 0
  end.

(** The counter [__init__] computes from the pictures [glob] found. *)
Definition counter_of (pictures : list string) : option Z :=
  if (List.length pictures =? 0)%nat then Some 0
  else match last_item (sort pictures) with
       | None => None
       | Some last_picture => int (slice_from_end 9 4 last_picture)
       end.

(** The pattern of the counter, and what [fnmatch] makes of it and of the
    suffix. *)
Definition count_pattern : string := repeat_string digit_class 5.

Definition tail_items : list pat_item :=
  [Digit; Digit; Digit; Digit; Digit; Lit "."; Lit "j"; Lit "p"; Lit "g"].

(** A day's basename as the configuration block builds it, and a directory
    that already holds pictures 00003 and 00007 of that day. *)
Definition day_basename : string := "2016-05-01/processed".

Definition used_fs : filesystem :=
  {| entries := ["2016-05-01"; "2016-05-01/processed00003.jpg";
                 "2016-05-01/processed00007.jpg";
                 "2016-05-01/original120000.jpg"];
     read_only := false |}.

(** The three methods as operations, to speak about arbitrary call
    sequences. *)
Inductive op : Type :=
| OpGet (count : Z)
| OpGetLast
| OpGetNext.

Definition step (self : PictureList) (o : op) : string * PictureList :=
  match o with
  | OpGet count => (get self count, self)
  | OpGetLast => (get_last self, self)
  | OpGetNext => get_next self
  end.

Fixpoint run (self : PictureList) (ops : list op) : list string * PictureList :=
  match ops with
  | [] => ([], self)
  | o :: ops' =>
      let (r, self1) := step self o in
      let (rs, self2) := run self1 ops' in
      (r :: rs, self2)
  end.

End PictureList.

(* ===================================================================== *)
(** * Photobooth.assemble_pictures: the layout *)
(* ===================================================================== *)

Module Assemble.

Import Py.
Open Scope Z_scope.

Definition outer_border : Z := 50.
Definition inner_border : Z := 20.

Definition thumb_box (pic_size : Z * Z) : Z * Z :=
  (fst pic_size / 2, snd pic_size / 2).

Definition thumb_size (pic_size : Z * Z) : Z * Z :=
  (fst (thumb_box pic_size) - outer_border - inner_border,
   snd (thumb_box pic_size) - outer_border - inner_border).

(** One [output_image.paste(img, offset)]: the pasted image covers the
    pixels [[x, x + w) x [y, y + h)] of the canvas. *)
Record paste : Type := {
  offset : Z * Z;
  size : Z * Z
}.

(** Image 0 *)
Definition paste0 (pic_size img : Z * Z) : paste :=
  let img := thumbnail img (thumb_size pic_size) in
  {| offset := (fst (thumb_box pic_size) - inner_border - fst img,
                snd (thumb_box pic_size) - inner_border - snd img);
     size := img |}.

(** Image 1 *)
Definition paste1 (pic_size img : Z * Z) : paste :=
  let img := thumbnail img (thumb_size pic_size) in
  {| offset := (fst (thumb_box pic_size) + inner_border,
                snd (thumb_box pic_size) - inner_border - snd img);
     size := img |}.

(** Image 2 *)
Definition paste2 (pic_size img : Z * Z) : paste :=
  let img := thumbnail img (thumb_size pic_size) in
  {| offset := (fst (thumb_box pic_size) - inner_border - fst img,
                snd (thumb_box pic_size) + inner_border);
     size := img |}.

(** Image 3 *)
Definition paste3 (pic_size img : Z * Z) : paste :=
  let img := thumbnail img (thumb_size pic_size) in
  {| offset := (fst (thumb_box pic_size) + inner_border,
                snd (thumb_box pic_size) + inner_border);
     size := img |}.

(** The assembled image: a white canvas and the four pastes, in order. *)
Record composite : Type := {
  canvas : Z * Z;
  background : Z * Z * Z;
  pastes : list paste
}.

Definition assemble (pic_size img0 img1 img2 img3 : Z * Z) : composite :=
  {| canvas := pic_size;
     background := (255, 255, 255);
     pastes := [paste0 pic_size img0; paste1 pic_size img1;
                paste2 pic_size img2; paste3 pic_size img3] |}.

(** Rectangles on the canvas, right and bottom edges excluded. *)
Record rect : Type := {
  left : Z;
  top : Z;
  right : Z;
  bottom : Z
}.

Definition rect_of (p : paste) : rect :=
  {| left := fst (offset p);
     top := snd (offset p);
     right := fst (offset p) + fst (size p);
     bottom := snd (offset p) + snd (size p) |}.

Definition disjoint (a b : rect) : bool :=
  (right a <=? left b) || (right b <=? left a) ||
  (bottom a <=? top b) || (bottom b <=? top a).

Definition inside (a b : rect) : bool :=
  (left b <=? left a) && (right a <=? right b) &&
  (top b <=? top a) && (bottom a <=? bottom b).

(** Quadrant [k] (0 top-left, 1 top-right, 2 bottom-left, 3 bottom-right) of
    the canvas, shrunk by [outer_border] on the sides that lie on the canvas
    edge and by [inner_border] on the sides that lie on the centre cross. *)
Definition shrunk_quadrant (pic_size : Z * Z) (k : nat) : rect :=
  let bx := fst (thumb_box pic_size) in
  let by_ := snd (thumb_box pic_size) in
  let col := Nat.odd k in
  let row := (2 <=? k)%nat in
  {| left := if col then bx + inner_border else outer_border;
     right := if col then fst pic_size - outer_border else bx - inner_border;
     top := if row then by_ + inner_border else outer_border;
     bottom := if row then snd pic_size - outer_border else by_ - inner_border |}.

Fixpoint pairwise_disjoint (l : list rect) : bool :=
  match l with
  | [] => true
  | r :: l' => forallb (disjoint r) l' && pairwise_disjoint l'
  end.

(** The thumbnail [t] has the proportions of the source [img] up to the
    rounding to whole pixels: one scale factor maps both sides of [img],
    rounded down, to the sides of [t]. *)
Definition same_aspect (img t : Z * Z) : bool :=
  (fst t * snd img <? (snd t + 1) * fst img) &&
  (snd t * fst img <? (fst t + 1) * snd img).

(** Scale-down only: no side of the thumbnail [t] exceeds the side of the
    source [img]. *)
Definition no_larger (img t : Z * Z) : bool :=
  (fst t <=? fst img) && (snd t <=? snd img).

(** The source [img] is more than [fst box] times as wide as it is high, or
    more than [snd box] times as high as it is wide: scaled into [box] with
    its proportions, its short side would have less than one pixel. *)
Definition elongated (img box : Z * Z) : bool :=
  (snd img * fst box <? fst img) || (fst img * snd box <? snd img).

Definition well_sized (img : Z * Z) : bool :=
  (1 <=? fst img) && (1 <=? snd img).

(** The edges of the four pastes that face the centre cross of the canvas
    (the lines [x = W / 2] and [y = H / 2]) are [inner_border] away from
    it. *)
Definition inner_edges_at_cross (pic_size : Z * Z) (l : list rect) : bool :=
  let cx := fst pic_size / 2 in
  let cy := snd pic_size / 2 in
  match l with
  | [r0; r1; r2; r3] =>
      (right r0 =? cx - inner_border) && (bottom r0 =? cy - inner_border) &&
      (left r1 =? cx + inner_border) && (bottom r1 =? cy - inner_border) &&
      (right r2 =? cx - inner_border) && (top r2 =? cy + inner_border) &&
      (left r3 =? cx + inner_border) && (top r3 =? cy + inner_border)
  | _ => false
  end.

(** The distances of the four pastes' outer edges to the canvas edge they
    face: horizontal and vertical, paste by paste. *)
Definition outer_gaps (pic_size : Z * Z) (l : list rect) : list Z :=
  match l with
  | [r0; r1; r2; r3] =>
      [left r0; top r0;
       fst pic_size - right r1; top r1;
       left r2; snd pic_size - bottom r2;
       fst pic_size - right r3; snd pic_size - bottom r3]
  | _ => []
  end.

Definition outer_edges_exact (pic_size : Z * Z) (l : list rect) : bool :=
  (List.length l =? 4)%nat &&
  forallb (fun g => g =? outer_border) (outer_gaps pic_size l).

Definition outer_edges_clear (pic_size : Z * Z) (l : list rect) : bool :=
  (List.length l =? 4)%nat &&
  forallb (fun g => outer_border <=? g) (outer_gaps pic_size l).

(** The frame the camera delivers ("camera takes photos @ 4752x3168"), and
    the composite of four such frames on the configured canvas. *)
Definition native_frame : Z * Z := (4752, 3168).

Definition native_composite : composite :=
  assemble (2352, 1568) native_frame native_frame native_frame native_frame.

(** A source that is 2000 times as wide as it is high, and the composite
    that has it in quadrant 0. *)
Definition panorama : Z * Z := (10000, 5).

Definition panorama_composite : composite :=
  assemble (2352, 1568) panorama native_frame native_frame native_frame.

End Assemble.

(* ===================================================================== *)
(** * class Photobooth *)
(* ===================================================================== *)

Module Booth.

Import Py.
Open Scope string_scope.
Open Scope Z_scope.

(** ** The environment *)

(** Modelled from the spec: the events of [events.py] and of the GUI module,
    which are not part of the sources at hand.  The spec gives the four
    variants; [event_type] is the number [handle_event] dispatches on. *)
Inductive event : Type :=
| Shutdown
| KeyPress (key : Z)
| MouseClick (button : Z) (pos : Z * Z)
| HardwareSignal (channel : Z).

Definition event_type (e : event) : Z :=
  match e with
  | Shutdown => 0
  | KeyPress _ => 1
  | MouseClick _ _ => 2
  | HardwareSignal _ => 3
  end.

(** Calls into the display, camera, GPIO and operating system, as they are
    logged. *)
Inductive effect : Type :=
| GpioSetOutput (channel level : Z)
| GpioTeardown
| DisplayClear (color : option (Z * Z * Z))
| DisplayShowMessage (msg : string)
| DisplayShowPicture (filename : string) (size offset : option (Z * Z))
                     (flip : bool)
| DisplayApply
| DisplayCheckForEvent
| DisplayWaitForEvent
| DisplayTeardown
| SlideshowDisplayNext (msg : string)
| CameraSetIdle
| CameraTakePreview (filename : string)
| CameraTakePicture (filename : string)
| ImageSave (filename : string) (img : Assemble.composite)
| RemoveTempfiles (pattern : string)
| Print (s : string)
| Sleep (seconds : Q).

(** One call into the camera: how long it takes, whether it raises, and the
    pixel size of the frame it delivers. *)
Record cam_step : Type := {
  latency : Q;
  fault : option exn;
  frame : Z * Z
}.

(** The camera when nothing else is scripted: immediate, without error, at
    the native resolution the configuration block mentions. *)
Definition default_step : cam_step :=
  {| latency := 0; fault := None; frame := (4752, 3168) |}.

(** The state of the kiosk and of its surroundings.
    - [now]: the wall clock, in seconds;
    - [levels]: the level of each GPIO output channel;
    - [pending]: input events with their arrival times;
    - [camera]: the outcomes of the camera calls to come;
    - [files]: the image files on disk with their pixel sizes;
    - [log]: the calls made so far, the most recent first. *)
Record world : Type := {
  now : Q;
  levels : Z -> Z;
  pending : list (Q * event);
  camera : list cam_step;
  files : list (string * (Z * Z));
  log : list effect
}.

(** What a call does: return, raise, or still be running when the fuel of
    the model's loops is used up. *)
Inductive outcome (A : Type) : Type :=
| Return (a : A)
| Raise (e : exn)
| Unfinished.

Arguments Return {A} a.
Arguments Raise {A} e.
Arguments Unfinished {A}.

Definition M (A : Type) : Type := world -> outcome A * world.

Definition ret {A} (a : A) : M A := fun w => (Return a, w).

Definition raise {A} (e : exn) : M A := fun w => (Raise e, w).

Definition unfinished {A} : M A := fun w => (Unfinished, w).

Definition bind {A B} (m : M A) (k : A -> M B) : M B :=
  fun w =>
    match m w with
    | (Return a, w') => k a w'
    | (Raise e, w') => (Raise e, w')
    | (Unfinished, w') => (Unfinished, w')
    end.

(** [try: m  except ... as e: handler e] *)
Definition try_except {A} (m : M A) (handler : exn -> M A) : M A :=
  fun w =>
    match m w with
    | (Raise e, w') => handler e w'
    | r => r
    end.

Declare Scope booth_scope.
Delimit Scope booth_scope with booth.
Notation "x <- m ;; k" := (bind m (fun x => k))
  (at level 61, m at next level, right associativity) : booth_scope.
Notation "m ;; k" := (bind m (fun _ => k))
  (at level 61, right associativity) : booth_scope.
Open Scope booth_scope.

Definition Qlt_bool (a b : Q) : bool := negb (Qle_bool b a).

(** [int(q)] on a float: truncation towards zero. *)
Definition int_of_Q (q : Q) : Z :=
  if Qle_bool 0 q then Qfloor q else Qceiling q.

(** ** Primitive calls

    [gui.py], [camera.py], [events.py] and [slideshow.py] are not among the
    sources at hand: the calls into them are modelled from the capabilities
    the spec lists for the display, the camera and the input/output back
    end.  A call is logged; camera calls take the time and have the outcome
    the environment scripts for them; a poll of the event queue takes the
    time the settings give. *)

Definition emit (e : effect) : M unit :=
  fun w =>
    (Return tt,
     {| now := now w; levels := levels w; pending := pending w;
        camera := camera w; files := files w; log := e :: log w |}).

(** [time.time()] *)
Definition time : M Q := fun w => (Return (now w), w).

(** [time.sleep(d)] *)
Definition sleep (d : Q) : M unit :=
  fun w =>
    (Return tt,
     {| now := (now w + d)%Q; levels := levels w; pending := pending w;
        camera := camera w; files := files w; log := Sleep d :: log w |}).

(** Modelled from the spec: [gpio.set_output(channel, level)] of the
    input/output capability ([events.py] is missing); the level of the
    channel is stored. *)
Definition gpio_set_output (channel level : Z) : M unit :=
  fun w =>
    (Return tt,
     {| now := now w;
        levels := fun c => if c =? channel then level else levels w c;
        pending := pending w; camera := camera w; files := files w;
        log := GpioSetOutput channel level :: log w |}).

(** Modelled from the spec: a call into the camera capability ([camera.py]
    is missing), which takes time and raises "a classified error
    {message, recoverable}" or anything else; the call takes the next
    scripted step. *)
Definition camera_call (e : effect) : M cam_step :=
  fun w =>
    let s := match camera w with [] => default_step | s :: _ => s end in
    let w' := {| now := (now w + latency s)%Q; levels := levels w;
                 pending := pending w; camera := List.tl (camera w);
                 files := files w; log := e :: log w |} in
    match fault s with
    | Some ex => (Raise ex, w')
    | None => (Return s, w')
    end.

Definition write_file (filename : string) (size : Z * Z) : M unit :=
  fun w =>
    (Return tt,
     {| now := now w; levels := levels w; pending := pending w;
        camera := camera w; files := (filename, size) :: files w;
        log := log w |}).

Definition camera_set_idle : M unit :=
  _ <- camera_call CameraSetIdle ;; ret tt.

Definition camera_take_preview (filename : string) : M unit :=
  s <- camera_call (CameraTakePreview filename) ;;
  write_file filename (frame s).

Definition camera_take_picture (filename : string) : M string :=
  s <- camera_call (CameraTakePicture filename) ;;
  write_file filename (frame s) ;;
  ret filename.

(** [Image.open(filename)], as far as the size of the image goes. *)
Definition image_open (filename : string) : M (Z * Z) :=
  fun w =>
    match find (fun f => String.eqb (fst f) filename) (files w) with
    | Some f => (Return (snd f), w)
    | None => (Raise (OtherException "IOError"), w)
    end.

(** The first event that has arrived, and the queue without it. *)
Fixpoint take_arrived (t : Q) (q : list (Q * event))
  : option event * list (Q * event) :=
  match q with
  | [] => (None, [])
  | a :: q' =>
      if Qle_bool (fst a) t then (Some (snd a), q')
      else let (r, q'') := take_arrived t q' in (r, a :: q'')
  end.

Fixpoint earliest (q : list (Q * event)) : option Q :=
  match q with
  | [] => None
  | a :: q' =>
      match earliest q' with
      | None => Some (fst a)
      | Some t => Some (Qmin (fst a) t)
      end
  end.

Fixpoint set_nth {A} (n : nat) (v : A) (l : list A) : list A :=
  match n, l with
  | _, [] => []
  | O, _ :: l' => v :: l'
  | S n', a :: l' => a :: set_nth n' v l'
  end.

Fixpoint no_slash (s : string) : bool :=
  match s with
  | "" => true
  | String c s' => negb (Ascii.eqb c "/") && no_slash s'
  end.

(** [fnmatch(name, prefix + "*" + ".jpg")] within one directory. *)
Definition matches_star_jpg (prefix name : string) : bool :=
  let n := String.length name in
  let k := String.length prefix in
  starts_with prefix name && (k + 4 <=? n)%nat &&
  String.eqb (drop (n - 4) name) ".jpg" &&
  no_slash (substring k (n - 4 - k) name).

(** ** Reading the log *)

(** The number of [camera.take_picture] calls in a log. *)
Fixpoint captures (l : list effect) : nat :=
  match l with
  | [] => O
  | CameraTakePicture _ :: l' => S (captures l')
  | _ :: l' => captures l'
  end.

(** The messages that were put on the screen and left there for 5 seconds,
    the most recent first: in the log, [show_message(m)], [apply()] and
    [sleep(5)] in a row. *)
Fixpoint retry_notices (l : list effect) : list string :=
  match l with
  | [] => []
  | e :: l' =>
      match e, l' with
      | Sleep d, DisplayApply :: DisplayShowMessage m :: _ =>
          if Qeq_bool d 5 then m :: retry_notices l' else retry_notices l'
      | _, _ => retry_notices l'
      end
  end.

(** The camera step fails with a recoverable [CameraException] that carries
    the message [m]. *)
Definition recoverable_failure (s : cam_step) (m : string) : Prop :=
  fault s = Some (CameraException m true).

(** No event that has arrived is left in the queue. *)
Definition drained (w : world) : Prop :=
  Forall (fun a => (now w < fst a)%Q) (pending w).

(** The log of [w'] continues the log of [w]; a computation [grows] the
    log when it only ever adds to it. *)
Definition extends (w w' : world) : Prop :=
  exists l, log w' = (l ++ log w)%list.

Definition grows {A} (m : M A) : Prop :=
  forall w, extends w (snd (m w)).

(** ** The program *)

(** The attributes [Photobooth.__init__] stores. *)
Record Photobooth : Type := {
  pic_size : Z * Z;
  pose_time : Z;
  display_time : Q;
  trigger_channel : Z;
  shutdown_channel : Z;
  lamp_channel : Z;
  idle_slideshow : bool;
  slideshow_display_time : Q
}.

(** The module-level configuration and what the back ends answer:
    [strftime_HMS t] is [datetime.now().strftime("%H%M%S")] at time [t],
    [display_size] is [display.get_size()], [has_preview] is
    [camera.has_preview()], and [poll_latency] is the time one
    [display.check_for_event()] takes. *)
Record settings : Type := {
  tmp_dir : string;
  picture_basename : string;
  original_basename : string;
  strftime_HMS : Q -> string;
  display_size : Z * Z;
  has_preview : bool;
  poll_latency : Q
}.

Section Controller.

Variable self : Photobooth.
Variable conf : settings.

Definition display_clear (color : option (Z * Z * Z)) : M unit :=
  emit (DisplayClear color).

Definition display_show_message (msg : string) : M unit :=
  emit (DisplayShowMessage msg).

Definition display_apply : M unit := emit DisplayApply.

Definition display_get_size : M (Z * Z) := ret (display_size conf).

(** Modelled from the spec: [poll_event() -> (has_event, event)] of the
    display capability ([gui.py] is missing), called
    [display.check_for_event()] here: after the time the poll takes, the
    first event that has arrived is taken off the queue. *)
Definition display_check_for_event : M (bool * option event) :=
  fun w =>
    let t := (now w + poll_latency conf)%Q in
    let (e, q) := take_arrived t (pending w) in
    (Return (match e with Some _ => true | None => false end, e),
     {| now := t; levels := levels w; pending := q; camera := camera w;
        files := files w; log := DisplayCheckForEvent :: log w |}).

(** Modelled from the spec: [wait_event() -> event] of the display
    capability ([gui.py] is missing), called [display.wait_for_event()]
    here: it blocks until an event is there; with no event to come it never
    returns. *)
Definition display_wait_for_event : M event :=
  fun w =>
    let t := match take_arrived (now w) (pending w) with
             | (Some _, _) => Some (now w)
             | (None, _) => earliest (pending w)
             end in
    match t with
    | None => (Unfinished, w)
    | Some t =>
        match take_arrived t (pending w) with
        | (Some e, q) =>
            (Return e,
             {| now := t; levels := levels w; pending := q;
                camera := camera w; files := files w;
                log := DisplayWaitForEvent :: log w |})
        | (None, _) => (Unfinished, w)
        end
    end.

Definition remove_tempfiles : M unit :=
  fun w =>
    let prefix := tmp_dir conf ++ "photobooth_" in
    (Return tt,
     {| now := now w; levels := levels w; pending := pending w;
        camera := camera w;
        files := filter (fun f => negb (matches_star_jpg prefix (fst f)))
                        (files w);
        log := RemoveTempfiles (prefix ++ "*.jpg") :: log w |}).

Definition teardown : M unit :=
  display_clear None ;;
  display_show_message "Shutting down..." ;;
  display_apply ;;
  gpio_set_output (lamp_channel self) 0 ;;
  sleep (1 # 2) ;;
  emit DisplayTeardown ;;
  emit GpioTeardown ;;
  remove_tempfiles ;;
  raise (SystemExit 0).

Fixpoint drain (fuel : nat) (r : bool) : M unit :=
  if r then
    match fuel with
    | O => unfinished
    | S fuel' => re <- display_check_for_event ;; drain fuel' (fst re)
    end
  else ret tt.

Definition clear_event_queue (fuel : nat) : M unit :=
  re <- display_check_for_event ;;
  drain fuel (fst re).

Definition handle_exception (msg : string) : M unit :=
  display_clear None ;;
  emit (Print ("Error: " ++ msg)) ;;
  display_show_message ("ERROR:" ++ nl ++ nl ++ msg) ;;
  display_apply ;;
  sleep 3.

(** [assemble_pictures]: the four images are opened in turn, scaled and
    pasted; the result is saved under a name made of the time of day. *)
Definition filename_at (n : nat) (input_filenames : list string) : M string :=
  match nth_error input_filenames n with
  | Some f => ret f
  | None => raise (OtherException "IndexError")
  end.

Definition assemble_pictures (input_filenames : list string) : M string :=
  f0 <- filename_at 0 input_filenames ;;
  img0 <- image_open f0 ;;
  f1 <- filename_at 1 input_filenames ;;
  img1 <- image_open f1 ;;
  f2 <- filename_at 2 input_filenames ;;
  img2 <- image_open f2 ;;
  f3 <- filename_at 3 input_filenames ;;
  img3 <- image_open f3 ;;
  t <- time ;;
  let output_filename := picture_basename conf ++ strftime_HMS conf t ++ ".jpg" in
  emit (ImageSave output_filename
          (Assemble.assemble (pic_size self) img0 img1 img2 img3)) ;;
  write_file output_filename (pic_size self) ;;
  ret output_filename.

Definition preview_file : string := tmp_dir conf ++ "photobooth_preview.jpg".

(** One turn of the [while toc < seconds] loop of [show_counter]; the new
    [toc] is returned. *)
Definition preview_tick (seconds : Z) (tic toc : Q) : M Q :=
  display_clear None ;;
  camera_take_preview preview_file ;;
  emit (DisplayShowPicture preview_file None None true) ;;
  display_show_message (str (seconds - int_of_Q toc)) ;;
  display_apply ;;
  t <- time ;;
  ret (Qmin (toc + 1) (t - tic)).

Fixpoint preview_loop (fuel : nat) (seconds : Z) (tic toc : Q) : M unit :=
  if Qlt_bool toc (inject_Z seconds) then
    match fuel with
    | O => unfinished
    | S fuel' =>
        toc' <- preview_tick seconds tic toc ;;
        preview_loop fuel' seconds tic toc'
    end
  else ret tt.

Fixpoint plain_countdown (seconds : Z) (l : list Z) : M unit :=
  match l with
  | [] => ret tt
  | i :: l' =>
      display_clear None ;;
      display_show_message (str (seconds - i)) ;;
      display_apply ;;
      sleep 1 ;;
      plain_countdown seconds l'
  end.

Definition show_counter (fuel : nat) (seconds : Z) : M unit :=
  if has_preview conf then
    display_clear None ;;
    camera_take_preview preview_file ;;
    emit (DisplayShowPicture preview_file None None true) ;;
    display_apply ;;
    tic <- time ;;
    t <- time ;;
    preview_loop fuel seconds tic (t - tic)
  else
    plain_countdown seconds (range seconds).

(** The padding at the end of every turn of the attempt loop. *)
Definition pad_to_one_second (tic : Q) : M unit :=
  t <- time ;;
  let toc := (t - tic)%Q in
  if Qlt_bool toc 1 then sleep (1 - toc) else ret tt.

(** The [while remaining_attempts > 0] loop for picture [x].  It is entered
    with [remaining_attempts = 3]; a successful capture sets the variable to
    0, which ends the loop with the file name. *)
Fixpoint capture_attempts (x : Z) (remaining_attempts : nat) (filenames : list string)
  : M (list string) :=
  match remaining_attempts with
  | O => ret filenames
  | S remaining_attempts =>
      display_clear (Some (255, 230, 200)) ;;
      display_show_message ("SMILE!" ++ nl ++ "Photo " ++ str (x + 1) ++ " of 4") ;;
      display_apply ;;
      tic <- time ;;
      r <- try_except
             (now_ <- time ;;
              f <- camera_take_picture
                     (original_basename conf ++ strftime_HMS conf now_ ++ ".jpg") ;;
              ret (Some f))
             (fun e =>
                match e with
                | CameraException message recoverable =>
                    if recoverable then
                      if (0 <? remaining_attempts)%nat then
                        display_clear None ;;
                        display_show_message message ;;
                        display_apply ;;
                        sleep 5 ;;
                        ret None
                      else
                        raise (CameraException "Giving up! Please start over!" false)
                    else raise e
                | _ => raise e
                end) ;;
      pad_to_one_second tic ;;
      match r with
      | Some f => ret (set_nth (Z.to_nat x) f filenames)
      | None => capture_attempts x remaining_attempts filenames
      end
  end.

Fixpoint take_shots (fuel : nat) (xs : list Z) (filenames : list string)
  : M (list string) :=
  match xs with
  | [] => ret filenames
  | x :: xs' =>
      show_counter fuel (pose_time self) ;;
      filenames' <- capture_attempts x 3 filenames ;;
      take_shots fuel xs' filenames'
  end.

(** [take_picture].  The list [filenames] starts as [[0, 1, 2, 3]], whose
    entries stand in until each shot has stored its file name; [outsize] is
    computed and never used, and is left out. *)
Definition take_picture (fuel : nat) : M unit :=
  gpio_set_output (lamp_channel self) 0 ;;
  display_clear None ;;
  display_show_message ("POSE!" ++ nl ++ nl ++ "Four pictures...") ;;
  display_apply ;;
  sleep 2 ;;
  size <- display_get_size ;;
  filenames <- take_shots fuel (range 4) (map str (range 4)) ;;
  display_clear None ;;
  display_show_message "Please wait!" ;;
  display_apply ;;
  outfile <- assemble_pictures filenames ;;
  display_clear None ;;
  emit (DisplayShowPicture outfile (Some size) (Some (0, 0)) false) ;;
  display_apply ;;
  sleep (display_time self) ;;
  gpio_set_output (lamp_channel self) 1 ;;
  clear_event_queue fuel.

Definition handle_keypress (fuel : nat) (key : Z) : M unit :=
  if key =? 113 then teardown
  else if key =? 99 then take_picture fuel
  else ret tt.

Definition handle_mousebutton (key : Z) (pos : Z * Z) : M unit :=
  if key =? 1 then emit (Print "Mouse click disabled") else ret tt.

Definition handle_gpio_event (fuel : nat) (channel : Z) : M unit :=
  if channel =? trigger_channel self then take_picture fuel
  else if channel =? shutdown_channel self then teardown
  else ret tt.

Definition handle_event (fuel : nat) (e : event) : M unit :=
  match e with
  | Shutdown => teardown
  | KeyPress key => handle_keypress fuel key
  | MouseClick button pos => handle_mousebutton button pos
  | HardwareSignal channel => handle_gpio_event fuel channel
  end.

(** The callback the GPIO back end calls on an edge: the edge becomes an
    event of the display queue. *)
Definition handle_gpio (channel : Z) : M unit :=
  fun w =>
    if (channel =? trigger_channel self) || (channel =? shutdown_channel self)
    then (Return tt,
          {| now := now w; levels := levels w;
             pending := pending w ++ [(now w, HardwareSignal channel)];
             camera := camera w; files := files w; log := log w |})
    else (Return tt, w).

Fixpoint handle_while (fuel : nat) (re : bool * option event) : M unit :=
  if fst re then
    match fuel with
    | O => unfinished
    | S fuel' =>
        match snd re with
        | Some e => handle_event fuel' e
        | None => ret tt
        end ;;
        re' <- display_check_for_event ;;
        handle_while fuel' re'
    end
  else ret tt.

Definition check_and_handle_events (fuel : nat) : M unit :=
  re <- display_check_for_event ;;
  handle_while fuel re.

Fixpoint _run_plain (fuel : nat) : M unit :=
  match fuel with
  | O => unfinished
  | S fuel' =>
      camera_set_idle ;;
      display_clear None ;;
      display_show_message "Press the button!" ;;
      display_apply ;;
      e <- display_wait_for_event ;;
      handle_event fuel' e ;;
      _run_plain fuel'
  end.

Fixpoint slide (fuel : nat) (tic : Q) : M unit :=
  t <- time ;;
  if Qlt_bool (t - tic) (slideshow_display_time self) then
    match fuel with
    | O => unfinished
    | S fuel' => check_and_handle_events fuel' ;; slide fuel' tic
    end
  else ret tt.

Fixpoint _run_slideshow (fuel : nat) : M unit :=
  match fuel with
  | O => unfinished
  | S fuel' =>
      camera_set_idle ;;
      emit (SlideshowDisplayNext "Press the button!") ;;
      tic <- time ;;
      slide fuel' tic ;;
      _run_slideshow fuel'
  end.

(** The [try] block of [run] and its [except] clauses. *)
Definition run_body (fuel : nat) : M unit :=
  gpio_set_output (lamp_channel self) 1 ;;
  if idle_slideshow self then _run_slideshow fuel else _run_plain fuel.

Definition run_except (e : exn) : M unit :=
  match e with
  | CameraException message _ => handle_exception message
  | KeyboardInterrupt => raise e
  | SystemExit _ => raise e
  | OtherException repr =>
      emit (Print ("SERIOUS ERROR: " ++ repr)) ;;
      handle_exception "SERIOUS ERROR!"
  end.

Fixpoint run (fuel : nat) : M unit :=
  match fuel with
  | O => unfinished
  | S fuel' =>
      try_except (run_body fuel') run_except ;;
      run fuel'
  end.

Definition main (fuel : nat) : M Z :=
  clear_event_queue fuel ;;
  run fuel ;;
  teardown ;;
  ret 0.

End Controller.

(** ** A booth to run

    The configuration block of [photobooth.py] on a GPIO-equipped machine
    with a camera that offers previews, and worlds that start at time 0 with
    an empty log.  The time-of-day stamp is the number of whole seconds
    since the start. *)
Definition demo_booth : Photobooth :=
  {| pic_size := (2352, 1568); pose_time := 3; display_time := 10;
     trigger_channel := 18; shutdown_channel := 24; lamp_channel := 23;
     idle_slideshow := true; slideshow_display_time := 5 |}.

Definition demo_settings : settings :=
  {| tmp_dir := "/dev/shm/";
     picture_basename := "2016-05-01/processed";
     original_basename := "2016-05-01/original";
     strftime_HMS := fun t => zfill 6 (str (Qfloor t));
     display_size := (848, 480);
     has_preview := true;
     poll_latency := 1 # 100 |}.

Definition camera_ok (l : Q) : cam_step :=
  {| latency := l; fault := None; frame := (4752, 3168) |}.

Definition camera_busy (l : Q) : cam_step :=
  {| latency := l; fault := Some (CameraException "Camera busy" true);
     frame := (0, 0) |}.

Definition camera_gone (l : Q) : cam_step :=
  {| latency := l; fault := Some (CameraException "No camera" false);
     frame := (0, 0) |}.

(** Previews that take a second each, and three failing captures. *)
Definition slow_previews : list cam_step :=
  [camera_ok (1 # 2); camera_ok 1; camera_ok 1; camera_ok 1].

Definition camera_broken (l : Q) : cam_step :=
  {| latency := l; fault := Some (OtherException "OSError('usb')");
     frame := (0, 0) |}.

(** Four shots that succeed, each after a countdown with previews; and a
    shot that fails three times. *)
Definition good_session : list cam_step :=
  (slow_previews ++ [camera_ok (1 # 5)] ++
   slow_previews ++ [camera_ok (1 # 5)] ++
   slow_previews ++ [camera_ok (1 # 5)] ++
   slow_previews ++ [camera_ok (1 # 5)])%list.

Definition failing_session : list cam_step :=
  (slow_previews ++
   [camera_busy (1 # 5); camera_busy (1 # 5); camera_busy (1 # 5)])%list.

(** The button pressed twice more while a session runs. *)
Definition impatient_presses : list (Q * event) :=
  [(5 # 1, HardwareSignal 18); (12 # 1, HardwareSignal 18)].

Definition start_world (cam : list cam_step) (events : list (Q * event)) : world :=
  {| now := 0; levels := fun _ => 0; pending := events; camera := cam;
     files := []; log := [] |}.

End Booth.
(* ===================================================================== *)
(** * Further observations on the sequencer and the controller *)
(* ===================================================================== *)

From Stdlib Require DecimalPos DecimalFacts.

Module PictureListMore.

Import Py PictureList.
Open Scope string_scope.
Open Scope Z_scope.

(** The paths [get_next] hands out along a sequence of calls. *)
Fixpoint next_paths (self : PictureList) (ops : list op) : list string :=
  match ops with
  | [] => []
  | o :: ops' =>
      let (r, self1) := step self o in
      match o with
      | OpGetNext => r :: next_paths self1 ops'
      | _ => next_paths self1 ops'
      end
  end.

(** A directory in which the counter has reached its last five-digit
    value and one more picture has been taken. *)
Definition full_fs : filesystem :=
  {| entries := ["2016-05-01"; "2016-05-01/processed99999.jpg";
                 "2016-05-01/processed100000.jpg"];
     read_only := false |}.

End PictureListMore.

Module AssembleMore.

Import Py Assemble.
Open Scope Z_scope.

(** The whole canvas as a rectangle. *)
Definition canvas_rect (pic_size : Z * Z) : rect :=
  {| left := 0; top := 0; right := fst pic_size; bottom := snd pic_size |}.

(** The source [img] exceeds the box of the thumbnails one way or the
    other. *)
Definition exceeds (img box : Z * Z) : bool :=
  (fst box <? fst img) || (snd box <? snd img).

End AssembleMore.

Module BoothMore.

Import Py Booth.
Open Scope string_scope.
Open Scope Z_scope.
Open Scope booth_scope.

(** ** More readings of the log *)

(** The texts of [display.show_message], the most recent first. *)
Fixpoint messages (l : list effect) : list string :=
  match l with
  | [] => []
  | DisplayShowMessage m :: l' => m :: messages l'
  | _ :: l' => messages l'
  end.

(** The number of composites saved. *)
Fixpoint saves (l : list effect) : nat :=
  match l with
  | [] => O
  | ImageSave _ _ :: l' => S (saves l')
  | _ :: l' => saves l'
  end.

(** The calls a countdown makes: drawing, previews and sleeping. *)
Definition countdown_effect (e : effect) : bool :=
  match e with
  | DisplayClear _ | DisplayShowMessage _ | DisplayShowPicture _ _ _ _
  | DisplayApply | CameraTakePreview _ | Sleep _ => true
  | _ => false
  end.

(** The calls the taking of the shots makes: those of a countdown and
    [camera.take_picture]. *)
Definition shot_effect (e : effect) : bool :=
  match e with
  | CameraTakePicture _ => true
  | _ => countdown_effect e
  end.

(** From [w] to [w'] the log has been continued by calls of the class [ok]
    only, and no output level has changed. *)
Definition adds (ok : effect -> bool) (w w' : world) : Prop :=
  exists l, log w' = (l ++ log w)%list /\ forallb ok l = true /\
            levels w' = levels w.

Definition only (ok : effect -> bool) {A} (m : M A) : Prop :=
  forall w, adds ok w (snd (m w)).

(** The countdown shown for [seconds] seconds without preview, the most
    recent call first. *)
Fixpoint countdown_log (seconds : Z) (l : list Z) : list effect :=
  match l with
  | [] => []
  | i :: l' =>
      (countdown_log seconds l' ++
       [Sleep 1; DisplayApply; DisplayShowMessage (str (seconds - i));
        DisplayClear None])%list
  end.

(** The numbers a countdown of [seconds] shows from progress [k] on, for [n]
    turns, the most recent first: [seconds - k] is shown first and comes
    last. *)
Fixpoint countdown_messages (seconds k : Z) (n : nat) : list string :=
  match n with
  | O => []
  | S n' => (countdown_messages seconds (k + 1) n' ++ [str (seconds - k)])%list
  end.

(** Every camera step of the list returns, after a second or more. *)
Definition slow_and_sound (steps : list cam_step) : Prop :=
  Forall (fun s => fault s = None /\ (1 <= latency s)%Q) steps.

(** The time the camera steps of the list take together. *)
Fixpoint total_latency (steps : list cam_step) : Q :=
  match steps with
  | [] => 0
  | s :: steps' => (latency s + total_latency steps')%Q
  end.

(** ** More booths and worlds *)

(** A booth whose camera has no preview and which idles on the plain
    screen. *)
Definition plain_booth : Photobooth :=
  {| pic_size := (2352, 1568); pose_time := 3; display_time := 10;
     trigger_channel := 18; shutdown_channel := 24; lamp_channel := 23;
     idle_slideshow := false; slideshow_display_time := 5 |}.

Definition plain_settings : settings :=
  {| tmp_dir := "/dev/shm/";
     picture_basename := "2016-05-01/processed";
     original_basename := "2016-05-01/original";
     strftime_HMS := fun t => zfill 6 (str (Qfloor t));
     display_size := (848, 480);
     has_preview := false;
     poll_latency := 1 # 100 |}.

End BoothMore.


(* ===================================================================== *)
(** * Facts about the Python built-ins *)
(* ===================================================================== *)

Module PyFacts.

Import Py.
Open Scope string_scope.
Open Scope Z_scope.

Lemma length_app (a b : string) :
  String.length (a ++ b) = (String.length a + String.length b)%nat.
Proof. induction a as [|c a IH]; simpl; [reflexivity | now rewrite IH]. Qed.

Lemma compare_refl (s : string) : String.compare s s = Eq.
Proof.
  induction s as [|c s IH]; simpl; [reflexivity|].
  unfold Ascii.compare. now rewrite N.compare_refl.
Qed.

Lemma compare_app_l (b u v : string) :
  String.compare (b ++ u) (b ++ v) = String.compare u v.
Proof.
  induction b as [|c b IH]; simpl; [reflexivity|].
  unfold Ascii.compare. now rewrite N.compare_refl.
Qed.

Lemma is_digit_range (c : ascii) :
  is_digit c = true -> 0 <= digit_value c <= 9.
Proof.
  unfold is_digit, digit_value. intros H.
  apply andb_true_iff in H. destruct H as [H1 H2].
  apply N.leb_le in H1. apply N.leb_le in H2. lia.
Qed.

Lemma int_digits_bounds (ds : string) :
  forall acc v, 0 <= acc -> int_digits acc ds = Some v ->
    acc * 10 ^ Z.of_nat (String.length ds) <= v
    < (acc + 1) * 10 ^ Z.of_nat (String.length ds).
Proof.
  induction ds as [|c ds IH]; intros acc v Hacc H.
  - simpl in *. inversion H; subst. lia.
  - cbn [int_digits] in H. destruct (is_digit c) eqn:Hc; [|discriminate].
    apply is_digit_range in Hc.
    apply IH in H; [|lia].
    cbn [String.length]. rewrite Nat2Z.inj_succ, Z.pow_succ_r by lia.
    nia.
Qed.

(** On digit strings of one length, the code-point order is the order of the
    numbers they read. *)
Lemma compare_digits (s : string) (dx : string) :
  forall dy ax ay vx vy,
    String.length dx = String.length dy ->
    0 <= ax -> 0 <= ay ->
    int_digits ax dx = Some vx -> int_digits ay dy = Some vy ->
    (vx ?= vy) = match ax ?= ay with
                 | Eq => String.compare (dx ++ s) (dy ++ s)
                 | c => c
                 end.
Proof.
  induction dx as [|c dx IH]; intros [|d dy] ax ay vx vy Hlen Hax Hay Hx Hy;
    try discriminate.
  - simpl in *. inversion Hx; inversion Hy; subst.
    rewrite compare_refl. now destruct (vx ?= vy).
  - cbn [int_digits] in Hx, Hy.
    destruct (is_digit c) eqn:Hc; [|discriminate].
    destruct (is_digit d) eqn:Hd; [|discriminate].
    pose proof (is_digit_range _ Hc) as Rc.
    pose proof (is_digit_range _ Hd) as Rd.
    simpl in Hlen. injection Hlen as Hlen.
    assert (Hax' : 0 <= 10 * ax + digit_value c) by lia.
    assert (Hay' : 0 <= 10 * ay + digit_value d) by lia.
    rewrite (IH dy _ _ _ _ Hlen Hax' Hay' Hx Hy).
    cbn [append String.compare]. unfold Ascii.compare.
    destruct (Z.compare_spec ax ay) as [E|L|G].
    + subst ay.
      assert (E : (10 * ax + digit_value c ?= 10 * ax + digit_value d)
                  = (N_of_ascii c ?= N_of_ascii d)%N).
      { unfold digit_value. rewrite <- (N2Z.inj_compare (N_of_ascii c)).
        destruct (Z.compare_spec (Z.of_N (N_of_ascii c)) (Z.of_N (N_of_ascii d)));
          [apply Z.compare_eq_iff | apply Z.compare_lt_iff | apply Z.compare_gt_iff];
          lia. }
      rewrite E. now destruct (N_of_ascii c ?= N_of_ascii d)%N.
    + assert (E : (10 * ax + digit_value c ?= 10 * ay + digit_value d) = Lt)
        by (apply Z.compare_lt_iff; lia).
      now rewrite E.
    + assert (E : (10 * ax + digit_value c ?= 10 * ay + digit_value d) = Gt)
        by (apply Z.compare_gt_iff; lia).
      now rewrite E.
Qed.

Lemma substring_app_middle (b ds s : string) :
  substring (String.length b) (String.length ds) (b ++ ds ++ s) = ds.
Proof.
  induction b as [|c b IH]; simpl.
  - induction ds as [|d ds IHd]; simpl.
    + now destruct s.
    + now rewrite IHd.
  - exact IH.
Qed.

Lemma slice_numbered (b ds : string) :
  String.length ds = 5%nat ->
  slice_from_end 9 4 (b ++ ds ++ ".jpg") = ds.
Proof.
  intros H. unfold slice_from_end.
  rewrite !length_app, H. simpl String.length.
  replace (String.length b + (5 + 4) - 9)%nat with (String.length b) by lia.
  replace (String.length b + (5 + 4) - 4 - String.length b)%nat
    with (String.length ds) by lia.
  apply substring_app_middle.
Qed.

(** ** Sorting *)

Lemma insert_sorted_not_nil x l : insert_sorted x l <> [].
Proof. destruct l as [|y l]; simpl; [|destruct (String.leb x y)]; discriminate. Qed.

Lemma last_cons_ne (a : string) l d : l <> [] -> List.last (a :: l) d = List.last l d.
Proof. destruct l; [congruence | reflexivity]. Qed.

Lemma last_indep (l : list string) d d' : l <> [] -> List.last l d = List.last l d'.
Proof.
  induction l as [|a l IH]; [congruence|]. intros _.
  destruct l as [|b l]; [reflexivity|].
  change (List.last (b :: l) d = List.last (b :: l) d'). apply IH. discriminate.
Qed.

(** Where the inserted element ends up last, it is above all others; else the
    last element stays and some element is above the inserted one. *)
Lemma insert_sorted_last x l d :
  (List.last (insert_sorted x l) d = x /\
   forall y, In y l -> String.leb x y = false) \/
  (l <> [] /\ List.last (insert_sorted x l) d = List.last l d /\
   exists y, In y l /\ String.leb x y = true).
Proof.
  induction l as [|a l IH]; simpl.
  - left. split; [reflexivity | intros y []].
  - destruct (String.leb x a) eqn:E.
    + right. split; [discriminate|]. split; [reflexivity|].
      exists a. split; [now left | exact E].
    + rewrite last_cons_ne by apply insert_sorted_not_nil.
      destruct IH as [[IH1 IH2] | (Hne & IH1 & y & Hy & Hxy)].
      * left. split; [exact IH1|]. intros y [<- | Hy]; [exact E | now apply IH2].
      * right. split; [discriminate|]. split.
        -- rewrite IH1. destruct l; [congruence | reflexivity].
        -- exists y. split; [now right | exact Hxy].
Qed.

Lemma sort_in x l : In x (sort l) <-> In x l.
Proof.
  assert (Hins : forall a l', In x (insert_sorted a l') <-> x = a \/ In x l').
  { intros a l'. induction l' as [|b l' IH]; simpl.
    - intuition congruence.
    - destruct (String.leb a b); simpl; intuition congruence. }
  induction l as [|a l IH]; simpl; [tauto|].
  rewrite Hins, IH. intuition congruence.
Qed.

(** When the order of the strings of [l] is the order of their keys, the
    last item of the sorted list has the greatest key. *)
Lemma sort_last_max (key : string -> Z) (l : list string) :
  (forall x y, In x l -> In y l -> String.leb x y = (key x <=? key y)) ->
  l <> [] ->
  exists m, last_item (sort l) = Some m /\ In m l /\
            forall y, In y l -> key y <= key m.
Proof.
  induction l as [|a l IH]; [congruence|]. intros Hkey _.
  assert (Hl : forall x y, In x l -> In y l -> String.leb x y = (key x <=? key y))
    by (intros; apply Hkey; now right).
  assert (E : forall s, s <> [] -> last_item s = Some (List.last s a)).
  { intros [|b s] Hs; [congruence|]. simpl.
    destruct s; [reflexivity|]. f_equal. apply last_indep. discriminate. }
  cbn [sort]. rewrite E by apply insert_sorted_not_nil.
  eexists. split; [reflexivity|].
  destruct l as [|b l].
  - simpl. split; [now left|]. intros y [<- | []]. lia.
  - assert (Hs : sort (b :: l) <> []) by (cbn [sort]; apply insert_sorted_not_nil).
    remember (b :: l) as l0 eqn:El0.
    assert (Hl0 : l0 <> []) by (subst l0; discriminate).
    clear El0.
    destruct (IH Hl Hl0) as (m & Hm & Hin & Hmax).
    rewrite E in Hm by exact Hs.
    injection Hm as Hm.
    destruct (insert_sorted_last a (sort l0) a) as [[H1 H2] | (Hne & H1 & y & Hy & Hxy)].
    + rewrite H1. split; [now left|].
      intros y [<- | Hy]; [lia|].
      pose proof (H2 y (proj2 (sort_in y _) Hy)) as F.
      rewrite (Hkey a y (or_introl eq_refl) (or_intror Hy)) in F.
      apply Z.leb_gt in F. lia.
    + rewrite H1, Hm. split; [now right|].
      intros z [<- | Hz]; [|now apply Hmax].
      apply (proj1 (sort_in y l0)) in Hy.
      rewrite (Hkey a y (or_introl eq_refl) (or_intror Hy)) in Hxy.
      apply Z.leb_le in Hxy.
      specialize (Hmax y Hy). lia.
Qed.

End PyFacts.

(* ===================================================================== *)
(** * PictureList: the counter and the file names *)
(* ===================================================================== *)

Module PictureListFacts.

Import Py PyFacts PictureList.
Open Scope string_scope.
Open Scope Z_scope.

(** ** The pattern [basename + "[0-9]" * 5 + ".jpg"] *)

Lemma magic_head c b :
  has_magic (String c b) = false -> Ascii.eqb "[" c = false /\ has_magic b = false.
Proof.
  cbn [has_magic]. unfold is_magic_char. intros H.
  apply orb_false_iff in H. destruct H as [H1 H2].
  apply orb_false_iff in H1. destruct H1 as [_ H1].
  split; [|exact H2]. now rewrite Ascii.eqb_sym.
Qed.

Lemma translate_literal b rest n :
  has_magic b = false ->
  translate (String.length b + n) (b ++ rest)
  = (map Lit (list_ascii_of_string b) ++ translate n rest)%list.
Proof.
  induction b as [|c b IH]; intros H; [reflexivity|].
  apply magic_head in H. destruct H as [Hc Hb].
  cbn [String.length Nat.add append translate list_ascii_of_string map app].
  unfold digit_class. cbn [starts_with]. rewrite Hc. cbn [andb].
  now rewrite IH.
Qed.

Lemma match_literal b items name :
  match_items (map Lit (list_ascii_of_string b) ++ items)%list name = true <->
  exists r, name = b ++ r /\ match_items items r = true.
Proof.
  revert name. induction b as [|c b IH]; intros name; simpl.
  - split; [intros H; now exists name | intros (r & -> & H); exact H].
  - destruct name as [|d name].
    + split; [discriminate | intros (r & E & _); discriminate].
    + rewrite andb_true_iff, IH, Ascii.eqb_eq. split.
      * intros (-> & r & -> & H). now exists r.
      * intros (r & E & H). injection E as -> ->. split; [reflexivity | now exists r].
Qed.

Lemma match_tail r :
  match_items tail_items r = true <->
  exists ds n, String.length ds = 5%nat /\ int_digits 0 ds = Some n /\
               r = ds ++ ".jpg".
Proof.
  split.
  - destruct r as [|c1 [|c2 [|c3 [|c4 [|c5 [|c6 [|c7 [|c8 [|c9 [|c r]]]]]]]]]];
      cbn [tail_items match_items]; rewrite ?andb_false_r; try discriminate.
    intros H. repeat (apply andb_true_iff in H; destruct H as [? H]).
    repeat match goal with
           | E : Ascii.eqb _ _ = true |- _ => apply Ascii.eqb_eq in E; subst
           end.
    exists (String c1 (String c2 (String c3 (String c4 (String c5 ""))))).
    cbn [int_digits].
    repeat match goal with E : is_digit _ = true |- _ => rewrite E; clear E end.
    eexists. split; [reflexivity|]. split; reflexivity.
  - intros (ds & n & Hlen & Hn & ->).
    destruct ds as [|c1 [|c2 [|c3 [|c4 [|c5 [|c ds]]]]]]; try discriminate.
    cbn [int_digits] in Hn. cbn [tail_items match_items append].
    destruct (is_digit c1); [|discriminate].
    destruct (is_digit c2); [|discriminate].
    destruct (is_digit c3); [|discriminate].
    destruct (is_digit c4); [|discriminate].
    destruct (is_digit c5); [|discriminate].
    reflexivity.
Qed.

Lemma fnmatch_numbered b name :
  has_magic b = false ->
  fnmatch (b ++ count_pattern ++ ".jpg") name = true <->
  exists n, numbered b n name.
Proof.
  intros Hb. unfold fnmatch. rewrite length_app.
  rewrite translate_literal by exact Hb.
  change (translate _ (count_pattern ++ ".jpg")) with tail_items.
  rewrite match_literal. unfold numbered. split.
  - intros (r & -> & H). apply match_tail in H.
    destruct H as (ds & n & H1 & H2 & ->). exists n, ds. auto.
  - intros (n & ds & H1 & H2 & ->). exists (ds ++ ".jpg"). split; [reflexivity|].
    apply match_tail. exists ds, n. auto.
Qed.

(** ** The number of a picture, read off its name *)

Lemma numbered_int b n name :
  numbered b n name -> int (slice_from_end 9 4 name) = Some n.
Proof.
  intros (ds & Hlen & Hn & ->). rewrite slice_numbered by exact Hlen.
  destruct ds; [discriminate | exact Hn].
Qed.

Lemma numbered_number_of b n name : numbered b n name -> number_of name = n.
Proof. intros H. unfold number_of. now rewrite (numbered_int _ _ _ H). Qed.

Lemma numbered_leb b n m x y :
  numbered b n x -> numbered b m y -> String.leb x y = (n <=? m).
Proof.
  intros (dx & Lx & Hx & ->) (dy & Ly & Hy & ->).
  unfold String.leb. rewrite compare_app_l.
  assert (C : (n ?= m) = String.compare (dx ++ ".jpg") (dy ++ ".jpg")).
  { apply (compare_digits ".jpg" dx dy 0 0 n m);
      solve [lia | assumption | congruence]. }
  rewrite <- C. reflexivity.
Qed.

Lemma numbered_length b n name :
  numbered b n name -> String.length name = (String.length b + 9)%nat.
Proof. intros (ds & L & _ & ->). rewrite !length_app, L. reflexivity. Qed.

(** ** [os.path.dirname] never returns a longer path *)

Lemma head_to_last_slash_length p :
  (String.length (head_to_last_slash p) <= String.length p)%nat.
Proof.
  induction p as [|c p IH]; simpl; [lia|].
  destruct (head_to_last_slash p); [destruct (Ascii.eqb c "/")|]; simpl in *; lia.
Qed.

Lemma rstrip_slash_length s :
  (String.length (rstrip_slash s) <= String.length s)%nat.
Proof.
  induction s as [|c s IH]; simpl; [lia|].
  destruct (rstrip_slash s); [destruct (Ascii.eqb c "/")|]; simpl in *; lia.
Qed.

Lemma dirname_length p : (String.length (dirname p) <= String.length p)%nat.
Proof.
  unfold dirname. pose proof (head_to_last_slash_length p).
  pose proof (rstrip_slash_length (head_to_last_slash p)).
  destruct (_ && _); lia.
Qed.

Lemma dirname_not_numbered b n : ~ numbered b n (dirname b).
Proof.
  intros H. apply numbered_length in H. pose proof (dirname_length b). lia.
Qed.

End PictureListFacts.

Module PictureListSpec.

Import Py PyFacts PictureList PictureListFacts.
Open Scope string_scope.
Open Scope Z_scope.

(** What [glob] returns for the pattern of [__init__]. *)
Lemma glob_numbered b fs x :
  has_magic b = false ->
  In x (glob (b ++ count_pattern ++ ".jpg") fs) <->
  In x (entries fs) /\ exists n, numbered b n x.
Proof.
  intros Hb. unfold glob. rewrite filter_In, fnmatch_numbered by exact Hb.
  reflexivity.
Qed.

(** The directory [__init__] may create is no picture. *)
Lemma glob_after_makedirs b fs ro :
  has_magic b = false ->
  glob (b ++ count_pattern ++ ".jpg")
       {| entries := dirname b :: entries fs; read_only := ro |}
  = glob (b ++ count_pattern ++ ".jpg") fs.
Proof.
  intros Hb. unfold glob. cbn [entries filter].
  destruct (fnmatch _ (dirname b)) eqn:E; [|reflexivity].
  apply fnmatch_numbered in E; [|exact Hb]. destruct E as [n E].
  now apply dirname_not_numbered in E.
Qed.

Lemma init_unfold b fs :
  has_magic b = false ->
  path_exists fs (dirname b) = true \/
  (dirname b <> "" /\ read_only fs = false) ->
  exists fs',
    init b fs =
    match counter_of (glob (b ++ count_pattern ++ ".jpg") fs) with
    | Some n => Ok ({| basename := b; suffix := ".jpg"; count_width := 5;
                        counter := n |}, fs')
    | None => Err (OtherException
                     match last_item (sort (glob (b ++ count_pattern ++ ".jpg") fs)) with
                     | Some _ => "ValueError"
                     | None => "IndexError"
                     end)
    end.
Proof.
  intros Hb Hdir. unfold init, counter_of.
  fold count_pattern.
  destruct (path_exists fs (dirname b)) eqn:E; cbn [negb].
  - exists fs. cbn [String.length Nat.add].
    destruct (_ =? _)%nat; [reflexivity|].
    destruct (last_item _); [|reflexivity]. now destruct (int _).
  - destruct Hdir as [Hdir | [Hne Hro]]; [discriminate|].
    unfold makedirs. apply String.eqb_neq in Hne. rewrite Hne, Hro.
    eexists. rewrite glob_after_makedirs by exact Hb.
    cbn [String.length Nat.add].
    destruct (_ =? _)%nat; [reflexivity|].
    destruct (last_item _); [|reflexivity]. now destruct (int _).
Qed.

Lemma counter_of_max b pictures :
  (forall x, In x pictures -> exists n, numbered b n x) ->
  exists c, counter_of pictures = Some c /\
    (forall x n, In x pictures -> numbered b n x -> n <= c) /\
    ((c = 0 /\ pictures = []) \/ exists x, In x pictures /\ numbered b c x).
Proof.
  intros Hnum. unfold counter_of.
  destruct pictures as [|p pictures].
  - exists 0. cbn. split; [reflexivity|]. split; [intros x n []|]. now left.
  - cbn [List.length Nat.eqb].
    destruct (sort_last_max number_of (p :: pictures)) as (m & Hm & Hin & Hmax).
    + intros x y Hx Hy.
      destruct (Hnum x Hx) as [nx Nx]. destruct (Hnum y Hy) as [ny Ny].
      rewrite (numbered_number_of _ _ _ Nx), (numbered_number_of _ _ _ Ny).
      exact (numbered_leb _ _ _ _ _ Nx Ny).
    + discriminate.
    + rewrite Hm. destruct (Hnum m Hin) as [c Hc].
      exists c. split; [exact (numbered_int _ _ _ Hc)|]. split.
      * intros x n Hx Hn. specialize (Hmax x Hx).
        now rewrite (numbered_number_of _ _ _ Hn), (numbered_number_of _ _ _ Hc) in Hmax.
      * right. now exists m.
Qed.

Lemma numbered_7 b : numbered b 7 (b ++ "00007.jpg").
Proof. exists "00007". repeat split. Qed.

(** C5 : [PictureList.__init__] sets the counter to the greatest number among
    the existing paths [<basename><5 digits>.jpg] (to 0 when there is none),
    and [get_next] increments the counter and returns
    [<basename><counter padded to 5 digits>.jpg].  On a directory without
    such a file the first [get_next] returns number 00001; with a file
    numbered 00007 as the greatest, the counter is 7 and [get_next] returns
    number 00008.  The directory of the basename has to exist or to be
    creatable, and the basename contains none of glob's special
    characters. *)
Theorem init_counter_is_max_and_next_formats (b : string) (fs : filesystem) :
  has_magic b = false ->
  path_exists fs (dirname b) = true \/
  (dirname b <> "" /\ read_only fs = false) ->
  exists self fs',
    init b fs = Ok (self, fs') /\
    basename self = b /\ suffix self = ".jpg" /\ count_width self = 5%nat /\
    (forall x n, In x (entries fs) -> numbered b n x -> n <= counter self) /\
    ((counter self = 0 /\ forall x n, In x (entries fs) -> ~ numbered b n x) \/
     (exists x, In x (entries fs) /\ numbered b (counter self) x)) /\
    get_next self
    = (b ++ zfill 5 (str (counter self + 1)) ++ ".jpg",
       set_counter self (counter self + 1)) /\
    ((forall x n, In x (entries fs) -> ~ numbered b n x) ->
     counter self = 0 /\ fst (get_next self) = b ++ "00001.jpg") /\
    (In (b ++ "00007.jpg") (entries fs) ->
     (forall x n, In x (entries fs) -> numbered b n x -> n <= 7) ->
     counter self = 7 /\ fst (get_next self) = b ++ "00008.jpg").
Proof.
  intros Hb Hdir.
  destruct (init_unfold b fs Hb Hdir) as [fs' Hinit].
  destruct (counter_of_max b (glob (b ++ count_pattern ++ ".jpg") fs))
    as (c & Hc & Hle & Hex).
  { intros x Hx. now apply (glob_numbered b fs x Hb) in Hx. }
  rewrite Hc in Hinit.
  eexists. exists fs'. split; [exact Hinit|]. cbn [basename suffix count_width counter].
  assert (Hall : forall x n, In x (entries fs) -> numbered b n x -> n <= c).
  { intros x n Hx Hn. apply (Hle x n); [|exact Hn].
    apply glob_numbered; [exact Hb|]. split; [exact Hx | now exists n]. }
  assert (Hcases : (c = 0 /\ forall x n, In x (entries fs) -> ~ numbered b n x) \/
                   (exists x, In x (entries fs) /\ numbered b c x)).
  { destruct Hex as [[-> Hnil] | (x & Hx & Hn)].
    - left. split; [reflexivity|]. intros x n Hx Hn.
      assert (In x (glob (b ++ count_pattern ++ ".jpg") fs)) as Hin.
      { apply glob_numbered; [exact Hb|]. split; [exact Hx | now exists n]. }
      rewrite Hnil in Hin. exact Hin.
    - right. exists x. split; [|exact Hn].
      now apply (glob_numbered b fs x Hb) in Hx. }
  repeat split; try reflexivity; try assumption.
  - destruct Hcases as [[-> _] | (x & Hx & Hn)]; [reflexivity|].
    exfalso. exact (H x c Hx Hn).
  - assert (c = 0) as ->.
    { destruct Hcases as [[-> _] | (x & Hx & Hn)]; [reflexivity|].
      exfalso. exact (H x c Hx Hn). }
    reflexivity.
  - destruct Hcases as [[_ Hnone] | (x & Hx & Hn)].
    + exfalso. exact (Hnone _ 7 H (numbered_7 b)).
    + pose proof (Hall _ 7 H (numbered_7 b)). pose proof (H0 x c Hx Hn). lia.
  - assert (c = 7) as ->.
    { destruct Hcases as [[_ Hnone] | (x & Hx & Hn)].
      + exfalso. exact (Hnone _ 7 H (numbered_7 b)).
      + pose proof (Hall _ 7 H (numbered_7 b)). pose proof (H0 x c Hx Hn). lia. }
    reflexivity.
Qed.

(** C5 on a directory that holds pictures 00003 and 00007 of the day. *)
Lemma init_counter_witness :
  exists self fs',
    init day_basename used_fs = Ok (self, fs') /\
    counter self = 7 /\
    fst (get_next self) = "2016-05-01/processed00008.jpg".
Proof.
  destruct (init_counter_is_max_and_next_formats day_basename used_fs)
    as (self & fs' & Hinit & _).
  - reflexivity.
  - left. reflexivity.
  - exists self, fs'. split; [exact Hinit|].
    vm_compute in Hinit. injection Hinit as <- _. split; reflexivity.
Defined.

(** C6 : the counter never decreases: [get] and [get_last] leave the object
    as it is, [get_next] adds exactly 1, and along any sequence of calls the
    counter after one more call is at least what it was. *)
Theorem counter_monotone (self : PictureList) :
  (forall count, snd (step self (OpGet count)) = self) /\
  snd (step self OpGetLast) = self /\
  counter (snd (step self OpGetNext)) = counter self + 1 /\
  (forall o, counter self <= counter (snd (step self o))) /\
  (forall ops, counter self <= counter (snd (run self ops))) /\
  (forall ops o,
      counter (snd (run self ops)) <= counter (snd (run self (ops ++ [o])))).
Proof.
  assert (Hstep : forall s o, counter s <= counter (snd (step s o))).
  { intros s [count| |]; cbn; lia. }
  assert (Hrun : forall ops s, counter s <= counter (snd (run s ops))).
  { induction ops as [|o ops IH]; intros s; cbn [run]; [cbn; lia|].
    destruct (step s o) as [r s1] eqn:E1.
    specialize (IH s1). destruct (run s1 ops) as [rs s2]. cbn [snd] in *.
    pose proof (Hstep s o) as H. rewrite E1 in H. cbn [snd] in H. lia. }
  repeat split; try reflexivity; auto.
  intros ops o. revert self. induction ops as [|a ops IH]; intros self.
  - cbn [run app]. destruct (step self o) as [r s1] eqn:E1. cbn [snd].
    pose proof (Hstep self o) as H. now rewrite E1 in H.
  - cbn [run app]. destruct (step self a) as [r s1].
    specialize (IH s1).
    destruct (run s1 ops) as [rs s2]. destruct (run s1 (ops ++ [o])) as [rs' s2'].
    exact IH.
Qed.

(** C10 : right after [get_next], [get_last] returns the path [get_next]
    returned. *)
Theorem get_last_after_get_next (self : PictureList) :
  get_last (snd (get_next self)) = fst (get_next self).
Proof. reflexivity. Qed.

End PictureListSpec.

(* ===================================================================== *)
(** * assemble_pictures: the geometry of the composite *)
(* ===================================================================== *)

Module AssembleSpec.

Import Py Assemble.
Open Scope Z_scope.

(** ** [Image.thumbnail] *)

Section Thumbnail.

Variables x y bw bh : Z.
Hypothesis Hx : 1 <= x.
Hypothesis Hy : 1 <= y.
Hypothesis Hbw : 1 <= bw.
Hypothesis Hbh : 1 <= bh.

Lemma thumbnail_cases :
  thumbnail (x, y) (bw, bh) = (x, y) /\ x <= bw /\ y <= bh \/
  thumbnail (x, y) (bw, bh) = (bw, Z.max (y * bw / x) 1) /\ bw < x /\
      Z.max (y * bw / x) 1 <= bh \/
  thumbnail (x, y) (bw, bh) = (Z.max (x * bh / y) 1, bh) /\ x <= bw /\ bh < y \/
  thumbnail (x, y) (bw, bh) = (Z.max (bw * bh / Z.max (y * bw / x) 1) 1, bh) /\
      bw < x /\ bh < Z.max (y * bw / x) 1.
Proof.
  unfold thumbnail. cbn [fst snd].
  destruct (Z.ltb_spec bw x) as [A|A].
  - destruct (Z.ltb_spec bh (Z.max (y * bw / x) 1)) as [B|B]; auto 6.
  - destruct (Z.ltb_spec bh y) as [B|B]; auto 6.
Qed.

Lemma thumbnail_bounds :
  1 <= fst (thumbnail (x, y) (bw, bh)) <= bw /\
  1 <= snd (thumbnail (x, y) (bw, bh)) <= bh /\
  fst (thumbnail (x, y) (bw, bh)) <= x /\
  snd (thumbnail (x, y) (bw, bh)) <= y.
Proof.
  pose proof (Z.mul_div_le (y * bw) x ltac:(lia)) as D1.
  pose proof (Z.mul_div_le (x * bh) y ltac:(lia)) as D2.
  set (y1 := Z.max (y * bw / x) 1) in *.
  pose proof (Z.mul_div_le (bw * bh) y1 ltac:(lia)) as D3.
  destruct thumbnail_cases as [(E & A & B) | [(E & A & B) | [(E & A & B) | (E & A & B)]]];
    rewrite E; cbn [fst snd]; subst y1.
  - lia.
  - split; [lia|]. split; [lia|]. split; [lia|]. nia.
  - split; [nia|]. split; [lia|]. split; [nia|]. lia.
  - split; [nia|]. split; [lia|]. split; [nia|]. nia.
Qed.

Lemma thumbnail_same_aspect :
  x <= y * bw -> y <= x * bh ->
  same_aspect (x, y) (thumbnail (x, y) (bw, bh)) = true.
Proof.
  intros Hw Hh.
  pose proof (Z.mul_div_le (y * bw) x ltac:(lia)) as D1.
  pose proof (Z.mul_succ_div_gt (y * bw) x ltac:(lia)) as D1'.
  pose proof (Z.div_le_lower_bound (y * bw) x 1 ltac:(lia) ltac:(lia)) as D1''.
  pose proof (Z.mul_div_le (x * bh) y ltac:(lia)) as D2.
  pose proof (Z.mul_succ_div_gt (x * bh) y ltac:(lia)) as D2'.
  pose proof (Z.div_le_lower_bound (x * bh) y 1 ltac:(lia) ltac:(lia)) as D2''.
  unfold same_aspect.
  destruct thumbnail_cases as [(E & A & B) | [(E & A & B) | [(E & A & B) | (E & A & B)]]];
    rewrite E; cbn [fst snd]; clear E;
    rewrite ?(Z.max_l _ 1 D1''), ?(Z.max_l _ 1 D2'') in *.
  - apply andb_true_iff. split; apply Z.ltb_lt; nia.
  - apply andb_true_iff. split; apply Z.ltb_lt; nia.
  - apply andb_true_iff. split; apply Z.ltb_lt; nia.
  - set (y1 := y * bw / x) in *.
    assert (Hy1 : y1 <= bw * bh) by nia.
    pose proof (Z.mul_div_le (bw * bh) y1 ltac:(lia)) as D3.
    pose proof (Z.mul_succ_div_gt (bw * bh) y1 ltac:(lia)) as D3'.
    pose proof (Z.div_le_lower_bound (bw * bh) y1 1 ltac:(lia) ltac:(lia)) as D3''.
    rewrite (Z.max_l _ 1 D3'').
    apply andb_true_iff. split; apply Z.ltb_lt; nia.
Qed.

Lemma thumbnail_elongated :
  y * bw < x \/ x * bh < y ->
  thumbnail (x, y) (bw, bh) = (bw, 1) \/ thumbnail (x, y) (bw, bh) = (1, bh).
Proof.
  intros [Hw | Hh].
  - assert (Q : y * bw / x = 0) by (apply Z.div_small; nia).
    destruct thumbnail_cases as [(E & A & B) | [(E & A & B) | [(E & A & B) | (E & A & B)]]];
      rewrite ?Q in *; rewrite E; try (exfalso; nia).
    left. reflexivity.
  - assert (Q : x * bh / y = 0) by (apply Z.div_small; nia).
    assert (Q1 : bw * bh <= y * bw / x)
      by (apply Z.div_le_lower_bound; nia).
    set (y1 := Z.max (y * bw / x) 1) in *.
    assert (Hy1 : bw * bh <= y1) by lia.
    destruct thumbnail_cases as [(E & A & B) | [(E & A & B) | [(E & A & B) | (E & A & B)]]];
      rewrite E; fold y1 in B |- *.
    + exfalso. nia.
    + right. assert (Hb : bw = 1) by nia. f_equal; nia.
    + right. rewrite Q. reflexivity.
    + right.
      assert (Q2 : bw * bh / y1 < 2) by (apply Z.div_lt_upper_bound; lia).
      f_equal. lia.
Qed.

End Thumbnail.

Lemma well_sized_iff img : well_sized img = true <-> 1 <= fst img /\ 1 <= snd img.
Proof. unfold well_sized. rewrite andb_true_iff, !Z.leb_le. reflexivity. Qed.

Lemma thumbnail_no_larger img box :
  well_sized img = true -> well_sized box = true ->
  no_larger img (thumbnail img box) = true.
Proof.
  destruct img as [x y], box as [bw bh]. rewrite !well_sized_iff. cbn [fst snd].
  intros [Hx Hy] [Hbw Hbh].
  pose proof (thumbnail_bounds x y bw bh Hx Hy Hbw Hbh) as B.
  unfold no_larger. rewrite andb_true_iff, !Z.leb_le. tauto.
Qed.

Lemma thumbnail_proportions img box :
  well_sized img = true -> well_sized box = true ->
  if elongated img box
  then thumbnail img box = (fst box, 1) \/ thumbnail img box = (1, snd box)
  else same_aspect img (thumbnail img box) = true.
Proof.
  destruct img as [x y], box as [bw bh]. rewrite !well_sized_iff. cbn [fst snd].
  intros [Hx Hy] [Hbw Hbh]. unfold elongated. cbn [fst snd].
  destruct (Z.ltb_spec (y * bw) x) as [A|A]; cbn [orb].
  - apply thumbnail_elongated; auto.
  - destruct (Z.ltb_spec (x * bh) y) as [B|B].
    + apply thumbnail_elongated; auto.
    + apply thumbnail_same_aspect; auto.
Qed.

Lemma thumbnail_in_box img box :
  well_sized img = true -> well_sized box = true ->
  1 <= fst (thumbnail img box) <= fst box /\
  1 <= snd (thumbnail img box) <= snd box.
Proof.
  destruct img as [x y], box as [bw bh]. rewrite !well_sized_iff. cbn [fst snd].
  intros [Hx Hy] [Hbw Hbh].
  pose proof (thumbnail_bounds x y bw bh Hx Hy Hbw Hbh) as B. tauto.
Qed.

Ltac bool_to_Prop :=
  repeat (rewrite ?andb_true_iff, ?orb_true_iff, ?Z.leb_le, ?Z.ltb_lt, ?Z.eqb_eq).

(** C3, as the spec has it, fails on a source that is very wide and very
    low: the side of a thumbnail never goes below one pixel, so the 10000x5
    source comes out 1106x1, which is 1106 times as wide as it is high where
    the source is 2000 times.  No rounding to whole pixels accounts for
    that. *)
Lemma proportions_lost_for_panorama :
  map size (pastes panorama_composite)
  = [(1106, 1); (1071, 714); (1071, 714); (1071, 714)] /\
  well_sized panorama = true /\
  ~ (forallb (fun ip => same_aspect (fst ip) (size (snd ip)))
             (combine [panorama; native_frame; native_frame; native_frame]
                      (pastes panorama_composite)) = true).
Proof.
  split; [reflexivity|]. split; [reflexivity|].
  intros H. vm_compute in H. discriminate.
Qed.

(** C3, amended : on the canvas (2352, 1568) with borders 50 and 20,
    whatever the four source images (of at least one pixel each way): the
    four pasted thumbnails are pairwise disjoint, each lies inside its
    quadrant shrunk by the borders, and no side of a thumbnail exceeds the
    source's.  The proportions are kept up to the rounding to whole pixels
    for every source that is at most 1106 times as wide as high and at most
    714 times as high as wide; a source beyond that comes out as a line one
    pixel thin, 1106 wide or 714 high. *)
Theorem composite_2352_1568_layout (img0 img1 img2 img3 : Z * Z) :
  forallb well_sized [img0; img1; img2; img3] = true ->
  let c := assemble (2352, 1568) img0 img1 img2 img3 in
  let rects := map rect_of (pastes c) in
  List.length (pastes c) = 4%nat /\
  pairwise_disjoint rects = true /\
  forallb (fun kr => inside (snd kr) (shrunk_quadrant (2352, 1568) (fst kr)))
          (combine [0; 1; 2; 3]%nat rects) = true /\
  forallb (fun ip => no_larger (fst ip) (size (snd ip)))
          (combine [img0; img1; img2; img3] (pastes c)) = true /\
  Forall (fun ip =>
            if elongated (fst ip) (thumb_size (2352, 1568))
            then size (snd ip) = (1106, 1) \/ size (snd ip) = (1, 714)
            else same_aspect (fst ip) (size (snd ip)) = true)
         (combine [img0; img1; img2; img3] (pastes c)).
Proof.
  cbn [forallb]. rewrite !andb_true_iff. intros (W0 & W1 & W2 & W3 & _).
  assert (Hbox : well_sized (thumb_size (2352, 1568)) = true) by reflexivity.
  pose proof (thumbnail_in_box img0 _ W0 Hbox) as B0.
  pose proof (thumbnail_in_box img1 _ W1 Hbox) as B1.
  pose proof (thumbnail_in_box img2 _ W2 Hbox) as B2.
  pose proof (thumbnail_in_box img3 _ W3 Hbox) as B3.
  pose proof (thumbnail_no_larger img0 _ W0 Hbox) as S0.
  pose proof (thumbnail_no_larger img1 _ W1 Hbox) as S1.
  pose proof (thumbnail_no_larger img2 _ W2 Hbox) as S2.
  pose proof (thumbnail_no_larger img3 _ W3 Hbox) as S3.
  pose proof (thumbnail_proportions img0 _ W0 Hbox) as P0.
  pose proof (thumbnail_proportions img1 _ W1 Hbox) as P1.
  pose proof (thumbnail_proportions img2 _ W2 Hbox) as P2.
  pose proof (thumbnail_proportions img3 _ W3 Hbox) as P3.
  cbv zeta. unfold assemble, paste0, paste1, paste2, paste3.
  cbn [pastes combine size fst snd].
  assert (HP : Forall (fun ip =>
            if elongated (fst ip) (thumb_size (2352, 1568))
            then size (snd ip) = (1106, 1) \/ size (snd ip) = (1, 714)
            else same_aspect (fst ip) (size (snd ip)) = true)
         [(img0, paste0 (2352, 1568) img0); (img1, paste1 (2352, 1568) img1);
          (img2, paste2 (2352, 1568) img2); (img3, paste3 (2352, 1568) img3)]).
  { repeat constructor; cbn [fst snd paste0 paste1 paste2 paste3 size]; assumption. }
  split; [reflexivity|].
  split; [|split; [|split; [|exact HP]]]; clear HP P0 P1 P2 P3;
    unfold shrunk_quadrant;
    change (thumb_size (2352, 1568)) with (1106, 714) in *;
    change (thumb_box (2352, 1568)) with (1176, 784);
    revert B0 B1 B2 B3 S0 S1 S2 S3;
    generalize (thumbnail img0 (1106, 714)) (thumbnail img1 (1106, 714))
               (thumbnail img2 (1106, 714)) (thumbnail img3 (1106, 714));
    intros [w0 h0] [w1 h1] [w2 h2] [w3 h3] B0 B1 B2 B3 S0 S1 S2 S3;
    cbv [pastes map combine forallb fst snd size offset rect_of pairwise_disjoint
         List.length disjoint inside left right top bottom inner_border
         outer_border Nat.odd Nat.even Nat.leb negb no_larger] in *;
    bool_to_Prop; repeat split; lia.
Qed.

(** C4, as the spec has it, fails on frames of the camera's native size:
    the thumbnails are 1071 pixels wide in a box of 1106, which leaves 85
    pixels, not 50, to the left and right canvas edges. *)
Lemma outer_edges_not_exact_for_camera_frames :
  outer_gaps (2352, 1568) (map rect_of (pastes native_composite))
  = [85; 50; 85; 50; 85; 50; 85; 50] /\
  ~ (inner_edges_at_cross (2352, 1568) (map rect_of (pastes native_composite)) = true /\
     outer_edges_exact (2352, 1568) (map rect_of (pastes native_composite)) = true).
Proof.
  split; [reflexivity|]. intros [_ H]. vm_compute in H. discriminate.
Qed.

(** C4, amended : the offsets anchor the thumbnail of quadrant 0 at its
    bottom-right corner, of quadrant 1 at its bottom-left, of quadrant 2 at
    its top-right and of quadrant 3 at its top-left: the edges facing the
    centre cross are exactly [inner_border] away from it, and the edges
    facing the canvas edge are at least [outer_border] away from it. *)
Theorem placement_anchors_at_centre_cross (pic_size img0 img1 img2 img3 : Z * Z) :
  well_sized (thumb_size pic_size) = true ->
  forallb well_sized [img0; img1; img2; img3] = true ->
  inner_edges_at_cross pic_size
    (map rect_of (pastes (assemble pic_size img0 img1 img2 img3))) = true /\
  outer_edges_clear pic_size
    (map rect_of (pastes (assemble pic_size img0 img1 img2 img3))) = true.
Proof.
  intros Hbox. cbn [forallb]. rewrite !andb_true_iff. intros (W0 & W1 & W2 & W3 & _).
  pose proof (thumbnail_in_box img0 _ W0 Hbox) as B0.
  pose proof (thumbnail_in_box img1 _ W1 Hbox) as B1.
  pose proof (thumbnail_in_box img2 _ W2 Hbox) as B2.
  pose proof (thumbnail_in_box img3 _ W3 Hbox) as B3.
  unfold assemble, paste0, paste1, paste2, paste3.
  revert B0 B1 B2 B3.
  generalize (thumbnail img0 (thumb_size pic_size))
             (thumbnail img1 (thumb_size pic_size))
             (thumbnail img2 (thumb_size pic_size))
             (thumbnail img3 (thumb_size pic_size)).
  intros [w0 h0] [w1 h1] [w2 h2] [w3 h3].
  destruct pic_size as [W H].
  cbv [pastes map forallb fst snd size offset rect_of left right top bottom
       inner_edges_at_cross outer_edges_clear outer_gaps thumb_size thumb_box
       inner_border outer_border List.length Nat.eqb].
  intros B0 B1 B2 B3.
  pose proof (Z.mul_div_le W 2 ltac:(lia)).
  pose proof (Z.mul_div_le H 2 ltac:(lia)).
  bool_to_Prop.
  repeat split; lia.
Qed.

(** The amended C4 at the configured canvas and the camera's native frames. *)
Lemma placement_anchors_witness :
  inner_edges_at_cross (2352, 1568)
    (map rect_of (pastes native_composite)) = true /\
  outer_edges_clear (2352, 1568)
    (map rect_of (pastes native_composite)) = true.
Proof.
  apply (placement_anchors_at_centre_cross (2352, 1568) native_frame
           native_frame native_frame native_frame); reflexivity.
Defined.

(** The amended C3 at the camera's native frames: the thumbnails are apart,
    and the one of quadrant 0 has the proportions of the frame. *)
Lemma composite_2352_1568_layout_witness :
  forallb well_sized [native_frame; native_frame; native_frame; native_frame] = true /\
  pairwise_disjoint (map rect_of (pastes native_composite)) = true /\
  same_aspect native_frame (size (paste0 (2352, 1568) native_frame)) = true.
Proof.
  split; [reflexivity|].
  destruct (composite_2352_1568_layout native_frame native_frame native_frame
              native_frame eq_refl) as (_ & D & _ & _ & P).
  split; [exact D|]. exact (Forall_inv P).
Defined.

End AssembleSpec.

(* ===================================================================== *)
(** * The controller: capture sessions and the main loop *)
(* ===================================================================== *)

Module BoothFacts.

Import Py Booth.
Open Scope string_scope.
Open Scope Z_scope.
Open Scope booth_scope.

(** ** The monad *)

Lemma bind_return {A B} (m : M A) (k : A -> M B) w b w' :
  bind m k w = (Return b, w') ->
  exists a w1, m w = (Return a, w1) /\ k a w1 = (Return b, w').
Proof.
  unfold bind. destruct (m w) as [[a| e |] w1]; intros H; try discriminate.
  now exists a, w1.
Qed.

Lemma bind_step {A B} (m : M A) (k : A -> M B) w a w1 :
  m w = (Return a, w1) -> bind m k w = k a w1.
Proof. unfold bind. now intros ->. Qed.

Lemma bind_raise {A B} (m : M A) (k : A -> M B) w e w1 :
  m w = (Raise e, w1) -> bind m k w = (Raise e, w1).
Proof. unfold bind. now intros ->. Qed.

(** Unfolding of the primitive calls on a world; the arithmetic of the clock
    is left alone. *)
Ltac exec :=
  cbv beta iota zeta delta
    [bind ret raise try_except emit sleep time gpio_set_output camera_call
     write_file camera_set_idle camera_take_preview camera_take_picture
     display_clear display_show_message display_apply display_get_size
     pad_to_one_second now levels pending camera files log fst snd List.tl
     latency fault frame default_step].

Section Capture.

Variable self : Photobooth.
Variable conf : settings.
Variable x : Z.

(** A recoverable failure with attempts left: the message is shown for 5
    seconds and the loop goes on with one attempt less. *)
Lemma attempt_retry n fl w s rest m :
  (0 < n)%nat ->
  camera w = s :: rest -> recoverable_failure s m ->
  exists w2,
    capture_attempts conf x (S n) fl w = capture_attempts conf x n fl w2 /\
    camera w2 = rest /\
    captures (log w2) = S (captures (log w)) /\
    retry_notices (log w2) = m :: retry_notices (log w).
Proof.
  intros Hn. apply Nat.ltb_lt in Hn.
  destruct w as [now0 levels0 pending0 camera0 files0 log0].
  destruct s as [lat flt frm]. unfold recoverable_failure.
  cbn [camera fault]. intros -> ->.
  cbn [capture_attempts]. exec. rewrite Hn.
  destruct (Qlt_bool _ 1); eexists; (split; [reflexivity|]); cbn; auto.
Qed.

(** A recoverable failure on the last attempt: the fatal error. *)
Lemma attempt_give_up fl w s rest m :
  camera w = s :: rest -> recoverable_failure s m ->
  exists w1,
    capture_attempts conf x 1 fl w
    = (Raise (CameraException "Giving up! Please start over!" false), w1) /\
    camera w1 = rest /\
    captures (log w1) = S (captures (log w)) /\
    retry_notices (log w1) = retry_notices (log w).
Proof.
  destruct w as [now0 levels0 pending0 camera0 files0 log0].
  destruct s as [lat flt frm]. unfold recoverable_failure.
  cbn [camera fault]. intros -> ->.
  cbn [capture_attempts]. exec. cbn [Nat.ltb Nat.leb].
  eexists. split; [reflexivity|]. cbn. auto.
Qed.

(** A failure that is not recoverable: the error itself, at once. *)
Lemma attempt_abort n fl w s rest m :
  camera w = s :: rest -> fault s = Some (CameraException m false) ->
  exists w1,
    capture_attempts conf x (S n) fl w = (Raise (CameraException m false), w1) /\
    camera w1 = rest /\
    captures (log w1) = S (captures (log w)) /\
    retry_notices (log w1) = retry_notices (log w).
Proof.
  destruct w as [now0 levels0 pending0 camera0 files0 log0].
  destruct s as [lat flt frm].
  cbn [camera fault]. intros -> ->.
  cbn [capture_attempts]. exec.
  eexists. split; [reflexivity|]. cbn. auto.
Qed.

(** A capture that succeeds: the loop ends with the file name stored, after
    the pad that fills the turn up to one second. *)
Lemma attempt_success n fl w s rest :
  camera w = s :: rest -> fault s = None ->
  let toc := (now w + latency s - now w)%Q in
  let f := original_basename conf ++ strftime_HMS conf (now w) ++ ".jpg" in
  let shot := [CameraTakePicture f; DisplayApply;
               DisplayShowMessage
                 ("SMILE!" ++ nl ++ "Photo " ++ str (x + 1) ++ " of 4");
               DisplayClear (Some (255, 230, 200))] in
  exists w1,
    capture_attempts conf x (S n) fl w
    = (Return (set_nth (Z.to_nat x) f fl), w1) /\
    camera w1 = rest /\
    log w1 = ((if Qlt_bool toc 1 then [Sleep (1 - toc)] else []) ++ shot ++ log w)%list /\
    now w1 = (if Qlt_bool toc 1 then now w + latency s + (1 - toc)
              else now w + latency s)%Q.
Proof.
  destruct w as [now0 levels0 pending0 camera0 files0 log0].
  destruct s as [lat flt frm].
  cbn [camera fault]. intros -> ->.
  cbn [capture_attempts]. exec.
  destruct (Qlt_bool _ 1); eexists; (split; [reflexivity|]); cbn [app]; auto.
Qed.

(** Any other exception out of the camera is not handled here. *)
Lemma attempt_other n fl w s rest e :
  camera w = s :: rest -> fault s = Some e ->
  (forall m r, e <> CameraException m r) ->
  exists w1,
    capture_attempts conf x (S n) fl w = (Raise e, w1) /\
    camera w1 = rest /\
    captures (log w1) = S (captures (log w)).
Proof.
  destruct w as [now0 levels0 pending0 camera0 files0 log0].
  destruct s as [lat flt frm].
  cbn [camera fault]. intros -> -> He.
  cbn [capture_attempts]. exec.
  destruct e as [m r| | c | r]; [now destruct (He m r)| | |];
    (eexists; split; [reflexivity|]; cbn; auto).
Qed.

Lemma captures_app l1 l2 : captures (l1 ++ l2) = (captures l1 + captures l2)%nat.
Proof.
  induction l1 as [|e l1 IH]; [reflexivity|].
  destruct e; cbn [app captures]; rewrite IH; reflexivity.
Qed.

(** A run of recoverable failures within the budget: each is retried. *)
Lemma retries fails :
  forall msgs n fl w rest,
    Forall2 recoverable_failure fails msgs ->
    (List.length fails < n)%nat ->
    camera w = (fails ++ rest)%list ->
    exists w2,
      capture_attempts conf x n fl w
      = capture_attempts conf x (n - List.length fails) fl w2 /\
      camera w2 = rest /\
      captures (log w2) = (captures (log w) + List.length fails)%nat /\
      retry_notices (log w2) = (rev msgs ++ retry_notices (log w))%list.
Proof.
  induction fails as [|s fails IH]; intros msgs n fl w rest HF Hn Hcam.
  - inversion HF; subst. exists w. cbn [List.length app rev].
    rewrite Nat.sub_0_r, Nat.add_0_r. auto.
  - inversion HF as [|s' m fails' msgs' Hs HF']; subst.
    cbn [List.length] in *. destruct n as [|n]; [lia|].
    destruct (attempt_retry n fl w s (fails ++ rest)%list m ltac:(lia) Hcam Hs)
      as (w1 & E1 & C1 & K1 & R1).
    destruct (IH msgs' n fl w1 rest HF' ltac:(lia) C1) as (w2 & E2 & C2 & K2 & R2).
    exists w2. rewrite E1, E2. cbn [Nat.sub].
    split; [reflexivity|]. split; [exact C2|]. split; [lia|].
    rewrite R2, R1. cbn [rev]. now rewrite <- app_assoc.
Qed.

(** The loop calls the camera at most as often as it has attempts. *)
Lemma captures_bounded n :
  forall fl w,
    (captures (log (snd (capture_attempts conf x n fl w)))
     <= captures (log w) + n)%nat.
Proof.
  induction n as [|n IH]; intros fl w.
  - cbn. lia.
  - destruct (camera w) as [|s rest] eqn:Hcam.
    + (* nothing scripted: the default step, a success *)
      destruct w as [now0 levels0 pending0 camera0 files0 log0].
      cbn [camera] in Hcam. subst camera0.
      cbn [capture_attempts]. exec.
      destruct (Qlt_bool _ 1); cbn; lia.
    + destruct (fault s) as [e|] eqn:Hs.
      * destruct e as [m [|]| | c | r].
        -- destruct n as [|n].
           ++ destruct (attempt_give_up fl w s rest m Hcam Hs) as (w1 & E & _ & K & _).
              rewrite E. cbn [snd]. lia.
           ++ destruct (attempt_retry (S n) fl w s rest m ltac:(lia) Hcam Hs)
                as (w1 & E & _ & K & _).
              rewrite E. specialize (IH fl w1). lia.
        -- destruct (attempt_abort n fl w s rest m Hcam Hs) as (w1 & E & _ & K & _).
           rewrite E. cbn [snd]. lia.
        -- destruct (attempt_other n fl w s rest _ Hcam Hs ltac:(discriminate))
             as (w1 & E & _ & K).
           rewrite E. cbn [snd]. lia.
        -- destruct (attempt_other n fl w s rest _ Hcam Hs ltac:(discriminate))
             as (w1 & E & _ & K).
           rewrite E. cbn [snd]. lia.
        -- destruct (attempt_other n fl w s rest _ Hcam Hs ltac:(discriminate))
             as (w1 & E & _ & K).
           rewrite E. cbn [snd]. lia.
      * destruct (attempt_success n fl w s rest Hcam Hs) as (w1 & E & _ & L & _).
        rewrite E. cbn [snd]. rewrite L, !captures_app.
        destruct (Qlt_bool _ 1); cbn; lia.
Qed.

End Capture.

Lemma Qlt_bool_iff a b : Qlt_bool a b = true <-> (a < b)%Q.
Proof.
  unfold Qlt_bool. rewrite negb_true_iff. split.
  - intros H. apply Qnot_le_lt. intros C. apply Qle_bool_iff in C. congruence.
  - intros H. destruct (Qle_bool b a) eqn:E; [|reflexivity].
    apply Qle_bool_iff in E. exfalso. exact (Qlt_not_le _ _ H E).
Qed.

Lemma Qlt_bool_false a b : Qlt_bool a b = false <-> (b <= a)%Q.
Proof.
  unfold Qlt_bool. rewrite negb_false_iff. apply Qle_bool_iff.
Qed.

End BoothFacts.

Module CaptureSpec.

Import Py Booth BoothFacts.
Open Scope string_scope.
Open Scope Z_scope.

(** C1 : the capture of one shot is attempted at most 3 times.  A recoverable
    failure with attempts left is retried after its message has been shown
    for 5 seconds; a success on any of the attempts ends the loop with the
    file stored, so that the session goes on; three recoverable failures in
    a row raise the fatal error "Giving up! Please start over!"; a
    non-recoverable failure raises the error itself without any further
    attempt.  What the loop raises, the session raises. *)
Theorem capture_retry_policy (self : Photobooth) (conf : settings) (x : Z)
    (fl : list string) (w : world) :
  let r := capture_attempts conf x 3 fl w in
  (captures (log (snd r)) <= captures (log w) + 3)%nat /\
  (forall fails msgs s rest,
      camera w = (fails ++ s :: rest)%list ->
      Forall2 recoverable_failure fails msgs ->
      (List.length fails < 3)%nat ->
      fault s = None ->
      (exists f, fst r = Return (set_nth (Z.to_nat x) f fl)) /\
      camera (snd r) = rest /\
      captures (log (snd r)) = (captures (log w) + List.length fails + 1)%nat /\
      retry_notices (log (snd r)) = (rev msgs ++ retry_notices (log w))%list) /\
  (forall fails msgs rest,
      camera w = (fails ++ rest)%list ->
      Forall2 recoverable_failure fails msgs ->
      List.length fails = 3%nat ->
      fst r = Raise (CameraException "Giving up! Please start over!" false) /\
      camera (snd r) = rest /\
      captures (log (snd r)) = (captures (log w) + 3)%nat /\
      retry_notices (log (snd r))
      = (rev (firstn 2 msgs) ++ retry_notices (log w))%list) /\
  (forall fails msgs s m rest,
      camera w = (fails ++ s :: rest)%list ->
      Forall2 recoverable_failure fails msgs ->
      (List.length fails < 3)%nat ->
      fault s = Some (CameraException m false) ->
      fst r = Raise (CameraException m false) /\
      camera (snd r) = rest /\
      captures (log (snd r)) = (captures (log w) + List.length fails + 1)%nat /\
      retry_notices (log (snd r)) = (rev msgs ++ retry_notices (log w))%list) /\
  (forall fuel xs w0,
      show_counter conf fuel (pose_time self) w0 = (Return tt, w) ->
      take_shots self conf fuel (x :: xs) fl w0
      = match fst r with
        | Return fl' => take_shots self conf fuel xs fl' (snd r)
        | Raise e => (Raise e, snd r)
        | Unfinished => (Unfinished, snd r)
        end) /\
  (forall fuel w0 w5 e w',
      (gpio_set_output (lamp_channel self) 0 ;;
       display_clear None ;;
       display_show_message ("POSE!" ++ nl ++ nl ++ "Four pictures...") ;;
       display_apply ;;
       sleep 2)%booth w0 = (Return tt, w5) ->
      take_shots self conf fuel (range 4) (map str (range 4)) w5 = (Raise e, w') ->
      take_picture self conf fuel w0 = (Raise e, w')).
Proof.
  cbv zeta. split; [apply captures_bounded|].
  split; [|split; [|split; [|split]]].
  - intros fails msgs s rest Hcam HF Hlen Hs.
    destruct (retries conf x fails msgs 3 fl w (s :: rest) HF Hlen Hcam)
      as (w2 & E & C & K & R).
    rewrite E.
    destruct (3 - List.length fails)%nat as [|n] eqn:En; [lia|].
    destruct (attempt_success conf x n fl w2 s rest C Hs) as (w1 & E1 & C1 & L1 & _).
    rewrite E1. cbn [fst snd]. split; [eauto|]. split; [exact C1|].
    rewrite L1, !captures_app, <- R, <- K. clear.
    destruct (Qlt_bool _ 1); cbn [app captures retry_notices]; split; (lia || reflexivity).
  - intros fails msgs rest Hcam HF Hlen.
    destruct fails as [|s1 [|s2 [|s3 [|s4 fails]]]]; try discriminate.
    inversion HF as [|? m1 ? ? H1 HF1]; subst.
    inversion HF1 as [|? m2 ? ? H2 HF2]; subst.
    inversion HF2 as [|? m3 ? ? H3 HF3]; subst.
    inversion HF3; subst.
    destruct (retries conf x [s1; s2] [m1; m2] 3 fl w (s3 :: rest)
                ltac:(repeat constructor; assumption) ltac:(cbn; lia) Hcam)
      as (w2 & E & C & K & R).
    rewrite E. cbn [List.length Nat.sub].
    destruct (attempt_give_up conf x fl w2 s3 rest m3 C H3) as (w1 & E1 & C1 & K1 & R1).
    rewrite E1. cbn [fst snd firstn]. rewrite K1, R1, K, R. cbn [List.length].
    repeat split; (assumption || lia || reflexivity).
  - intros fails msgs s m rest Hcam HF Hlen Hs.
    destruct (retries conf x fails msgs 3 fl w (s :: rest) HF Hlen Hcam)
      as (w2 & E & C & K & R).
    rewrite E.
    destruct (3 - List.length fails)%nat as [|n] eqn:En; [lia|].
    destruct (attempt_abort conf x n fl w2 s rest m C Hs) as (w1 & E1 & C1 & K1 & R1).
    rewrite E1. cbn [fst snd]. rewrite K1, R1, K, R.
    repeat split; (assumption || lia || reflexivity).
  - intros fuel xs w0 Hshow. cbn [take_shots].
    rewrite (bind_step _ _ _ _ _ Hshow). unfold bind.
    destruct (capture_attempts conf x 3 fl w) as [[fl'|e|] w']; reflexivity.
  - intros fuel w0 w5 e w' Hentry Hshots.
    destruct w0 as [now0 levels0 pending0 camera0 files0 log0].
    revert Hentry. unfold take_picture. exec. intros Hentry.
    injection Hentry as Hw5.
    match goal with
    | |- context [take_shots self conf fuel ?a ?b ?w0] =>
        replace (take_shots self conf fuel a b w0)
          with (take_shots self conf fuel (range 4) (map str (range 4)) w5)
          by (rewrite <- Hw5; reflexivity)
    end.
    now rewrite Hshots.
Qed.

(** C1 on a camera that is busy twice and then delivers: the third attempt
    ends the loop, and both messages were shown. *)
Lemma capture_retry_policy_witness :
  (exists f,
      fst (capture_attempts demo_settings 0 3 (map str (range 4))
             (start_world [camera_busy (1 # 5); camera_busy (1 # 5);
                           camera_ok (1 # 5)] []))
      = Return (set_nth 0 f (map str (range 4)))) /\
  retry_notices
    (log (snd (capture_attempts demo_settings 0 3 (map str (range 4))
                 (start_world [camera_busy (1 # 5); camera_busy (1 # 5);
                               camera_ok (1 # 5)] []))))
  = ["Camera busy"; "Camera busy"].
Proof.
  destruct (capture_retry_policy demo_booth demo_settings 0 (map str (range 4))
              (start_world [camera_busy (1 # 5); camera_busy (1 # 5);
                            camera_ok (1 # 5)] []))
    as (_ & H & _).
  destruct (H [camera_busy (1 # 5); camera_busy (1 # 5)]
              ["Camera busy"; "Camera busy"] (camera_ok (1 # 5)) [])
    as (H1 & _ & _ & H2).
  - reflexivity.
  - repeat constructor.
  - cbn. lia.
  - reflexivity.
  - split; [exact H1 | exact H2].
Defined.

(** C8 : after a capture that succeeds with a measured time [toc] under one
    second the loop sleeps [1 - toc] seconds and ends; with [toc] of one
    second or more it ends without sleeping.  Either way at least one second
    has passed since the attempt began. *)
Theorem pad_after_successful_capture (conf : settings) (x : Z) (n : nat)
    (fl : list string) (w : world) (s : cam_step) (rest : list cam_step) :
  camera w = s :: rest -> fault s = None ->
  let toc := (now w + latency s - now w)%Q in
  exists w1 f shot,
    capture_attempts conf x (S n) fl w = (Return (set_nth (Z.to_nat x) f fl), w1) /\
    shot = [CameraTakePicture f; DisplayApply;
            DisplayShowMessage
              ("SMILE!" ++ nl ++ "Photo " ++ str (x + 1) ++ " of 4");
            DisplayClear (Some (255, 230, 200))] /\
    ((toc < 1)%Q -> log w1 = (Sleep (1 - toc) :: shot ++ log w)%list) /\
    ((1 <= toc)%Q -> log w1 = (shot ++ log w)%list) /\
    (1 <= now w1 - now w)%Q.
Proof.
  intros Hcam Hs toc.
  destruct (attempt_success conf x n fl w s rest Hcam Hs) as (w1 & E & _ & L & T).
  fold toc in L, T.
  exists w1. do 2 eexists. split; [exact E|]. split; [reflexivity|].
  destruct (Qlt_bool toc 1) eqn:B.
  - apply Qlt_bool_iff in B. split; [intros _; exact L|].
    split; [intros C; exfalso; exact (Qlt_not_le _ _ B C)|].
    rewrite T. subst toc. lra.
  - apply Qlt_bool_false in B. split; [intros C; exfalso; exact (Qlt_not_le _ _ C B)|].
    split; [intros _; exact L|].
    rewrite T. subst toc. lra.
Qed.

(** C8 on a capture that takes a fifth of a second: a pad of four fifths. *)
Lemma pad_after_successful_capture_witness :
  exists w1,
    snd (capture_attempts demo_settings 0 3 (map str (range 4))
           (start_world [camera_ok (1 # 5)] [])) = w1 /\
    hd_error (log w1) = Some (Sleep (1 - (0 + (1 # 5) - 0))) /\
    (1 <= now w1 - 0)%Q.
Proof.
  destruct (pad_after_successful_capture demo_settings 0 2 (map str (range 4))
              (start_world [camera_ok (1 # 5)] []) (camera_ok (1 # 5)) []
              eq_refl eq_refl)
    as (w1 & f & shot & E & Hshot & Hpad & _ & Htot).
  exists w1. rewrite E. split; [reflexivity|]. split; [|exact Htot].
  rewrite Hpad; [reflexivity|]. reflexivity.
Defined.

End CaptureSpec.

Module CountdownSpec.

Import Py Booth BoothFacts.
Open Scope string_scope.
Open Scope Z_scope.
Open Scope booth_scope.

Lemma preview_tick_returns conf seconds tic toc w toc' w' :
  preview_tick conf seconds tic toc w = (Return toc', w') ->
  toc' = Qmin (toc + 1) (now w' - tic).
Proof.
  destruct w as [now0 levels0 pending0 camera0 files0 log0].
  unfold preview_tick. exec.
  destruct camera0 as [|[lat [e|] frm] rest]; exec; intros H; inversion H;
    reflexivity.
Qed.

Lemma preview_loop_exit conf fuel :
  forall seconds tic toc w w',
    (toc <= now w - tic)%Q ->
    preview_loop conf fuel seconds tic toc w = (Return tt, w') ->
    (inject_Z seconds <= now w' - tic)%Q.
Proof.
  induction fuel as [|fuel IH]; intros seconds tic toc w w' Hinv H;
    cbn [preview_loop] in H;
    destruct (Qlt_bool toc (inject_Z seconds)) eqn:B;
    try discriminate.
  - inversion H; subst. apply Qlt_bool_false in B. eapply Qle_trans; eassumption.
  - apply bind_return in H. destruct H as (toc1 & w1 & Htick & Hloop).
    apply preview_tick_returns in Htick.
    apply (IH seconds tic toc1 w1 w'); [|exact Hloop].
    subst toc1. apply Q.le_min_r.
  - inversion H; subst. apply Qlt_bool_false in B. eapply Qle_trans; eassumption.
Qed.

(** C7 : in the countdown with preview, every turn of the loop sets
    [toc] to [min(toc + 1, elapsed)], where [elapsed] is the wall-clock time
    since [tic]: the progress per turn is at most one second and never ahead
    of the wall clock; and the loop is left only when the wall-clock time
    elapsed since [tic] is at least the [seconds] asked for. *)
Theorem preview_countdown_pacing (conf : settings) (seconds : Z) :
  (forall tic toc w toc' w',
      preview_tick conf seconds tic toc w = (Return toc', w') ->
      toc' = Qmin (toc + 1) (now w' - tic) /\
      (toc' <= toc + 1)%Q /\ (toc' <= now w' - tic)%Q) /\
  (forall fuel tic toc w w',
      (toc <= now w - tic)%Q ->
      preview_loop conf fuel seconds tic toc w = (Return tt, w') ->
      (inject_Z seconds <= now w' - tic)%Q) /\
  (forall fuel w w',
      has_preview conf = true ->
      show_counter conf fuel seconds w = (Return tt, w') ->
      exists w0,
        (display_clear None ;;
         camera_take_preview (preview_file conf) ;;
         emit (DisplayShowPicture (preview_file conf) None None true) ;;
         display_apply) w = (Return tt, w0) /\
        (inject_Z seconds <= now w' - now w0)%Q).
Proof.
  split; [|split].
  - intros tic toc w toc' w' H. apply preview_tick_returns in H. subst toc'.
    split; [reflexivity|]. split; [apply Q.le_min_l | apply Q.le_min_r].
  - intros fuel tic toc w w'. apply preview_loop_exit.
  - intros fuel w w' Hp H. unfold show_counter in H. rewrite Hp in H.
    destruct w as [now0 levels0 pending0 camera0 files0 log0].
    revert H. exec.
    destruct camera0 as [|[lat [e|] frm] rest]; exec; intros H; try discriminate;
      (eexists; split; [reflexivity|]; cbn [now];
       eapply preview_loop_exit; [|exact H]; cbn [now]; apply Qle_refl).
Qed.

(** C7 on previews that take a second each: the countdown of 3 seconds is
    left after three turns, 3 seconds after [tic]. *)
Lemma preview_countdown_pacing_witness :
  exists w0,
    (display_clear None ;;
     camera_take_preview (preview_file demo_settings) ;;
     emit (DisplayShowPicture (preview_file demo_settings) None None true) ;;
     display_apply) (start_world slow_previews []) = (Return tt, w0) /\
    (inject_Z 3
     <= now (snd (show_counter demo_settings 5 3 (start_world slow_previews [])))
        - now w0)%Q.
Proof.
  apply (proj2 (proj2 (preview_countdown_pacing demo_settings 3)) 5%nat
           (start_world slow_previews [])
           (snd (show_counter demo_settings 5 3 (start_world slow_previews [])))).
  - reflexivity.
  - vm_compute. reflexivity.
Defined.

End CountdownSpec.

Module SessionFacts.

Import Py Booth BoothFacts.
Open Scope string_scope.
Open Scope Z_scope.
Open Scope booth_scope.

(** ** Computations only add to the log *)

Lemma extends_refl w : extends w w.
Proof. now exists []. Qed.

Lemma extends_trans w1 w2 w3 : extends w1 w2 -> extends w2 w3 -> extends w1 w3.
Proof.
  intros [l1 H1] [l2 H2]. exists (l2 ++ l1)%list.
  now rewrite H2, H1, app_assoc.
Qed.

Lemma extends_cons w w' e : log w' = e :: log w -> extends w w'.
Proof. intros H. now exists [e]. Qed.

Lemma grows_ret {A} (a : A) : grows (ret a).
Proof. intros w. apply extends_refl. Qed.

Lemma grows_raise {A} e : grows (@raise A e).
Proof. intros w. apply extends_refl. Qed.

Lemma grows_unfinished {A} : grows (@unfinished A).
Proof. intros w. apply extends_refl. Qed.

Lemma grows_bind {A B} (m : M A) (k : A -> M B) :
  grows m -> (forall a, grows (k a)) -> grows (bind m k).
Proof.
  intros Hm Hk w. unfold bind. specialize (Hm w).
  destruct (m w) as [[a|e|] w1]; cbn [snd] in *; try exact Hm.
  eapply extends_trans; [exact Hm | apply Hk].
Qed.

Lemma grows_try_except {A} (m : M A) (h : exn -> M A) :
  grows m -> (forall e, grows (h e)) -> grows (try_except m h).
Proof.
  intros Hm Hh w. unfold try_except. specialize (Hm w).
  destruct (m w) as [[a|e|] w1]; cbn [snd] in *; try exact Hm.
  eapply extends_trans; [exact Hm | apply Hh].
Qed.

Lemma grows_emit e : grows (emit e).
Proof. intros w. now apply extends_cons with (e := e). Qed.

Lemma grows_sleep d : grows (sleep d).
Proof. intros w. now apply extends_cons with (e := Sleep d). Qed.

Lemma grows_time : grows time.
Proof. intros w. apply extends_refl. Qed.

Lemma grows_gpio_set_output c l : grows (gpio_set_output c l).
Proof. intros w. now apply extends_cons with (e := GpioSetOutput c l). Qed.

Lemma grows_camera_call e : grows (camera_call e).
Proof.
  intros w. unfold camera_call.
  destruct (fault _); now apply extends_cons with (e := e).
Qed.

Lemma grows_write_file f s : grows (write_file f s).
Proof. intros w. now exists []. Qed.

Lemma grows_image_open f : grows (image_open f).
Proof. intros w. unfold image_open. destruct (find _ _); apply extends_refl. Qed.

Lemma grows_check conf : grows (display_check_for_event conf).
Proof.
  intros w. unfold display_check_for_event.
  destruct (take_arrived _ _). now apply extends_cons with (e := DisplayCheckForEvent).
Qed.

Create HintDb grows.

#[export] Hint Resolve grows_ret grows_raise grows_unfinished grows_emit grows_sleep
  grows_time grows_gpio_set_output grows_camera_call grows_write_file
  grows_image_open grows_check : grows.

Ltac grow :=
  repeat first
    [ progress auto with grows
    | apply grows_bind; [|intros ?]
    | apply grows_try_except; [|intros ?]
    | match goal with
      | |- grows (match ?x with _ => _ end) => destruct x
      | |- grows (if ?b then _ else _) => destruct b
      end ].

Lemma grows_preview_loop conf fuel :
  forall seconds tic toc, grows (preview_loop conf fuel seconds tic toc).
Proof.
  induction fuel as [|fuel IH]; intros seconds tic toc; cbn [preview_loop].
  - grow.
  - destruct (Qlt_bool _ _); [|grow].
    apply grows_bind; [|intros ?; apply IH].
    unfold preview_tick, display_clear, display_show_message, display_apply,
      camera_take_preview. grow.
Qed.

Lemma grows_plain_countdown seconds l : grows (plain_countdown seconds l).
Proof.
  induction l as [|i l IH]; cbn [plain_countdown]; [grow|].
  unfold display_clear, display_show_message, display_apply.
  do 4 (apply grows_bind; [grow | intros ?]). exact IH.
Qed.

Lemma grows_show_counter conf fuel seconds : grows (show_counter conf fuel seconds).
Proof.
  unfold show_counter. destruct (has_preview conf).
  - unfold display_clear, display_apply, camera_take_preview.
    do 6 (apply grows_bind; [grow | intros ?]). apply grows_preview_loop.
  - apply grows_plain_countdown.
Qed.

Lemma grows_capture_attempts conf x n :
  forall fl, grows (capture_attempts conf x n fl).
Proof.
  induction n as [|n IH]; intros fl; cbn [capture_attempts]; [grow|].
  unfold display_clear, display_show_message, display_apply, camera_take_picture,
    pad_to_one_second.
  do 4 (apply grows_bind; [grow | intros ?]).
  apply grows_bind; [grow|]. intros r.
  apply grows_bind; [grow|]. intros _.
  destruct r; [grow | apply IH].
Qed.

Lemma grows_take_shots self conf fuel xs :
  forall fl, grows (take_shots self conf fuel xs fl).
Proof.
  induction xs as [|x xs IH]; intros fl; cbn [take_shots]; [grow|].
  apply grows_bind; [apply grows_show_counter | intros _].
  apply grows_bind; [apply grows_capture_attempts | intros ?]. apply IH.
Qed.

Lemma grows_assemble_pictures self conf fl : grows (assemble_pictures self conf fl).
Proof.
  unfold assemble_pictures, filename_at. grow.
Qed.

Lemma returns_extends {A} (m : M A) w a w' :
  grows m -> m w = (Return a, w') -> extends w w'.
Proof. intros G H. specialize (G w). now rewrite H in G. Qed.

(** ** Draining the event queue *)

Lemma take_arrived_none t q q' :
  take_arrived t q = (None, q') ->
  q' = q /\ Forall (fun a => (t < fst a)%Q) q.
Proof.
  revert q'. induction q as [|a q IH]; intros q' H; cbn [take_arrived] in H.
  - inversion H. auto.
  - destruct (Qle_bool (fst a) t) eqn:E; [discriminate|].
    destruct (take_arrived t q) as [r q''] eqn:Er.
    inversion H; subst. destruct (IH q'' eq_refl) as [-> HF].
    split; [reflexivity|]. constructor; [|exact HF].
    apply Qnot_le_lt. intros C. apply Qle_bool_iff in C. congruence.
Qed.

Lemma check_for_event_spec conf w :
  exists r e w1,
    display_check_for_event conf w = (Return (r, e), w1) /\
    log w1 = DisplayCheckForEvent :: log w /\
    levels w1 = levels w /\
    (r = false -> drained w1).
Proof.
  unfold display_check_for_event.
  destruct (take_arrived _ (pending w)) as [e q] eqn:E.
  do 3 eexists. split; [reflexivity|]. cbn [log levels].
  split; [reflexivity|]. split; [reflexivity|].
  destruct e; [discriminate|]. intros _.
  apply take_arrived_none in E. destruct E as [-> HF]. exact HF.
Qed.

Lemma drain_spec conf fuel :
  forall r w w',
    drain conf fuel r w = (Return tt, w') ->
    (r = false -> drained w) ->
    exists polls,
      log w' = (polls ++ log w)%list /\
      Forall (eq DisplayCheckForEvent) polls /\
      levels w' = levels w /\
      drained w'.
Proof.
  induction fuel as [|fuel IH]; intros r w w' H Hd;
    destruct r; cbn [drain] in H; try discriminate.
  - inversion H; subst. exists []. auto.
  - destruct (check_for_event_spec conf w) as (r1 & e1 & w1 & E & L & V & D).
    rewrite (bind_step _ _ _ _ _ E) in H. cbn [fst] in H.
    destruct (IH r1 w1 w' H D) as (polls & L' & F' & V' & D').
    exists (polls ++ [DisplayCheckForEvent])%list.
    rewrite L', L, <- app_assoc. split; [reflexivity|].
    split; [apply Forall_app; auto|]. split; [congruence | exact D'].
  - inversion H; subst. exists []. auto.
Qed.

Lemma clear_event_queue_spec conf fuel w w' :
  clear_event_queue conf fuel w = (Return tt, w') ->
  exists polls,
    log w' = (polls ++ log w)%list /\
    polls <> [] /\
    Forall (eq DisplayCheckForEvent) polls /\
    levels w' = levels w /\
    drained w'.
Proof.
  unfold clear_event_queue. intros H.
  destruct (check_for_event_spec conf w) as (r1 & e1 & w1 & E & L & V & D).
  rewrite (bind_step _ _ _ _ _ E) in H. cbn [fst] in H.
  destruct (drain_spec conf fuel r1 w1 w' H D) as (polls & L' & F' & V' & D').
  exists (polls ++ [DisplayCheckForEvent])%list.
  rewrite L', L, <- app_assoc. split; [reflexivity|].
  split; [now destruct polls|].
  split; [apply Forall_app; auto|]. split; [congruence | exact D'].
Qed.

(** With more fuel than there are events in the queue, the queue is
    drained. *)
Lemma drain_terminates conf fuel :
  forall r w,
    (List.length (pending w) < fuel)%nat ->
    exists w', drain conf fuel r w = (Return tt, w').
Proof.
  induction fuel as [|fuel IH]; intros r w Hlen; [lia|].
  destruct r; cbn [drain]; [|eexists; reflexivity].
  unfold bind, display_check_for_event.
  destruct (take_arrived _ (pending w)) as [e q] eqn:E.
  destruct e as [e|]; cbn [fst].
  - apply IH. cbn [pending].
    assert (Hq : forall t l e' q', take_arrived t l = (Some e', q') ->
                                   S (List.length q') = List.length l).
    { clear. intros t l. induction l as [|a l IHl]; intros e' q' H; cbn in H.
      - discriminate.
      - destruct (Qle_bool (fst a) t); [inversion H; reflexivity|].
        destruct (take_arrived t l) as [r q''] eqn:Er. inversion H; subst.
        cbn [List.length]. f_equal. eapply IHl. reflexivity. }
    apply Hq in E. lia.
  - destruct fuel; cbn [drain]; eexists; reflexivity.
Qed.

End SessionFacts.

Module SessionSpec.

Import Py Booth BoothFacts SessionFacts.
Open Scope string_scope.
Open Scope Z_scope.
Open Scope booth_scope.

Ltac split_bind H a w1 H1 :=
  apply bind_return in H; destruct H as (a & w1 & H1 & H).

(** C9 : a capture session that completes has switched the lamp off first,
    before the pose message, and switched it back on at its end; after that
    it has polled the event queue until no event that had arrived was left.
    The lamp is on and the queue is drained when the session returns. *)
Theorem session_lamp_and_drain (self : Photobooth) (conf : settings)
    (fuel : nat) (w w' : world) :
  take_picture self conf fuel w = (Return tt, w') ->
  exists polls middle,
    log w' = (polls ++ GpioSetOutput (lamp_channel self) 1 :: middle ++
              [Sleep 2; DisplayApply;
               DisplayShowMessage ("POSE!" ++ nl ++ nl ++ "Four pictures...");
               DisplayClear None; GpioSetOutput (lamp_channel self) 0] ++
              log w)%list /\
    polls <> [] /\
    Forall (eq DisplayCheckForEvent) polls /\
    levels w' (lamp_channel self) = 1 /\
    drained w'.
Proof.
  unfold take_picture. intros H.
  split_bind H a1 w1 H1. split_bind H a2 w2 H2. split_bind H a3 w3 H3.
  split_bind H a4 w4 H4. split_bind H a5 w5 H5.
  assert (L5 : log w5 = ([Sleep 2; DisplayApply;
                          DisplayShowMessage ("POSE!" ++ nl ++ nl ++ "Four pictures...");
                          DisplayClear None; GpioSetOutput (lamp_channel self) 0]
                         ++ log w)%list).
  { inversion H1; inversion H2; inversion H3; inversion H4; inversion H5; subst.
    reflexivity. }
  clear H1 H2 H3 H4 H5.
  split_bind H size w6 H6. split_bind H filenames w7 H7.
  split_bind H a8 w8 H8. split_bind H a9 w9 H9. split_bind H a10 w10 H10.
  split_bind H outfile w11 H11.
  split_bind H a12 w12 H12. split_bind H a13 w13 H13. split_bind H a14 w14 H14.
  split_bind H a15 w15 H15. split_bind H a16 w16 H16.
  apply returns_extends in H6; [|solve [unfold display_get_size; grow]].
  apply returns_extends in H7; [|solve [apply grows_take_shots]].
  apply returns_extends in H8; [|solve [unfold display_clear; grow]].
  apply returns_extends in H9; [|solve [unfold display_show_message; grow]].
  apply returns_extends in H10; [|solve [unfold display_apply; grow]].
  apply returns_extends in H11; [|solve [apply grows_assemble_pictures]].
  apply returns_extends in H12; [|solve [unfold display_clear; grow]].
  apply returns_extends in H13; [|solve [grow]].
  apply returns_extends in H14; [|solve [unfold display_apply; grow]].
  apply returns_extends in H15; [|solve [grow]].
  assert (E : extends w5 w15) by
    (repeat (eapply extends_trans; [eassumption|]); apply extends_refl).
  destruct E as [middle Hmid].
  assert (L16 : log w16 = GpioSetOutput (lamp_channel self) 1 :: log w15 /\
                levels w16 (lamp_channel self) = 1).
  { inversion H16; subst. cbn [log levels]. now rewrite Z.eqb_refl. }
  destruct L16 as [L16 V16].
  apply clear_event_queue_spec in H.
  destruct H as (polls & L & Hne & HF & V & D).
  exists polls, middle.
  rewrite L, L16, Hmid, L5. split; [reflexivity|].
  split; [exact Hne|]. split; [exact HF|]. split; [|exact D].
  now rewrite V.
Qed.

(** C9 on a session of four good shots during which the button is pressed
    twice more: the session returns with the lamp on and nothing left in the
    queue. *)
Lemma session_lamp_and_drain_witness :
  levels (snd (take_picture demo_booth demo_settings 5
                 (start_world good_session impatient_presses))) 23 = 1 /\
  drained (snd (take_picture demo_booth demo_settings 5
                  (start_world good_session impatient_presses))).
Proof.
  destruct (session_lamp_and_drain demo_booth demo_settings 5
              (start_world good_session impatient_presses)
              (snd (take_picture demo_booth demo_settings 5
                      (start_world good_session impatient_presses))))
    as (polls & middle & _ & _ & _ & V & D).
  - vm_compute. reflexivity.
  - split; [exact V | exact D].
Defined.

End SessionSpec.

Module RunSpec.

Import Py Booth BoothFacts SessionFacts.
Open Scope string_scope.
Open Scope Z_scope.
Open Scope booth_scope.

Lemma handle_exception_returns msg w :
  exists w2,
    handle_exception msg w = (Return tt, w2) /\
    log w2 = Sleep 3 :: DisplayApply ::
             DisplayShowMessage ("ERROR:" ++ nl ++ nl ++ msg) ::
             Print ("Error: " ++ msg) :: DisplayClear None :: log w /\
    now w2 = (now w + 3)%Q.
Proof.
  destruct w as [now0 levels0 pending0 camera0 files0 log0].
  eexists. unfold handle_exception. exec. split; [reflexivity|]. split; reflexivity.
Qed.

(** What leaves the [try] statement of [run] is one of the two exceptions
    that are raised again. *)
Lemma try_raises self conf fuel w e w1 :
  try_except (run_body self conf fuel) run_except w = (Raise e, w1) ->
  e = KeyboardInterrupt \/ exists c, e = SystemExit c.
Proof.
  unfold try_except.
  destruct (run_body self conf fuel w) as [[a|e0|] w0]; try discriminate.
  destruct e0 as [m r| | c | r]; cbn [run_except].
  - destruct (handle_exception_returns m w0) as (w2 & E & _). rewrite E. discriminate.
  - unfold raise. intros H. inversion H. now left.
  - unfold raise. intros H. inversion H. right. now exists c.
  - unfold bind, emit.
    match goal with
    | |- context [handle_exception ?m ?w] =>
        destruct (handle_exception_returns m w) as (w2 & E & _); rewrite E
    end.
    discriminate.
Qed.

(** C2 : whatever is raised inside the [try] block of [run] (the idle loop
    and the sessions it starts): a camera error and any other exception are
    caught, an error message is put on the screen for exactly 3 seconds, and
    the loop goes into its next turn; [KeyboardInterrupt] and [SystemExit]
    are raised again.  So [run] never returns, and it is left by these two
    exceptions only. *)
Theorem run_contains_failures (self : Photobooth) (conf : settings) :
  (forall fuel w w1 m r,
      run_body self conf fuel w = (Raise (CameraException m r), w1) ->
      exists w2,
        run self conf (S fuel) w = run self conf fuel w2 /\
        log w2 = Sleep 3 :: DisplayApply ::
                 DisplayShowMessage ("ERROR:" ++ nl ++ nl ++ m) ::
                 Print ("Error: " ++ m) :: DisplayClear None :: log w1 /\
        now w2 = (now w1 + 3)%Q) /\
  (forall fuel w w1 repr,
      run_body self conf fuel w = (Raise (OtherException repr), w1) ->
      exists w2,
        run self conf (S fuel) w = run self conf fuel w2 /\
        log w2 = Sleep 3 :: DisplayApply ::
                 DisplayShowMessage ("ERROR:" ++ nl ++ nl ++ "SERIOUS ERROR!") ::
                 Print ("Error: " ++ "SERIOUS ERROR!") :: DisplayClear None ::
                 Print ("SERIOUS ERROR: " ++ repr) :: log w1 /\
        now w2 = (now w1 + 3)%Q) /\
  (forall fuel w w1 e,
      run_body self conf fuel w = (Raise e, w1) ->
      e = KeyboardInterrupt \/ (exists c, e = SystemExit c) ->
      run self conf (S fuel) w = (Raise e, w1)) /\
  (forall fuel w,
      match fst (run self conf fuel w) with
      | Return _ => False
      | Raise e => e = KeyboardInterrupt \/ exists c, e = SystemExit c
      | Unfinished => True
      end).
Proof.
  split; [|split; [|split]].
  - intros fuel w w1 m r H.
    destruct (handle_exception_returns m w1) as (w2 & E & L & T).
    exists w2. split; [|split; assumption].
    cbn [run]. unfold bind at 1, try_except. rewrite H. cbn [run_except].
    now rewrite E.
  - intros fuel w w1 repr H.
    destruct w1 as [now1 levels1 pending1 camera1 files1 log1].
    eexists. split; [|split].
    + cbn [run]. unfold bind at 1, try_except. rewrite H. cbn [run_except].
      unfold handle_exception. exec. reflexivity.
    + reflexivity.
    + reflexivity.
  - intros fuel w w1 e H He.
    cbn [run]. unfold bind at 1, try_except. rewrite H.
    destruct He as [-> | [c ->]]; reflexivity.
  - induction fuel as [|fuel IH]; intros w; [exact I|].
    cbn [run]. unfold bind at 1.
    destruct (try_except (run_body self conf fuel) run_except w)
      as [[a|e|] w1] eqn:E.
    + apply IH.
    + cbn [fst]. exact (try_raises self conf fuel w e w1 E).
    + exact I.
Qed.

(** C2 on a booth whose camera is busy three times in the first session:
    the fatal error of the session is shown for 3 seconds and the loop goes
    on; likewise when the camera breaks with another exception while the
    booth idles; and on a shutdown event [run] is left by [SystemExit]. *)
Lemma run_contains_failures_witness :
  (exists w2,
      run demo_booth demo_settings 10
          (start_world (camera_ok 0 :: failing_session)
                       [(0 # 1, HardwareSignal 18)])
      = run demo_booth demo_settings 9 w2 /\
      hd_error (log w2) = Some (Sleep 3)) /\
  (exists w2,
      run demo_booth demo_settings 3 (start_world [camera_broken 0] [])
      = run demo_booth demo_settings 2 w2 /\
      hd_error (log w2) = Some (Sleep 3)) /\
  fst (run demo_booth demo_settings 10 (start_world [] [(0 # 1, Shutdown)]))
  = Raise (SystemExit 0).
Proof.
  split; [|split].
  - destruct (proj1 (run_contains_failures demo_booth demo_settings) 9%nat
                (start_world (camera_ok 0 :: failing_session)
                             [(0 # 1, HardwareSignal 18)])
                (snd (run_body demo_booth demo_settings 9
                        (start_world (camera_ok 0 :: failing_session)
                                     [(0 # 1, HardwareSignal 18)])))
                "Giving up! Please start over!" false)
      as (w2 & E & L & _).
    + vm_compute. reflexivity.
    + exists w2. split; [exact E|]. rewrite L. reflexivity.
  - destruct (proj1 (proj2 (run_contains_failures demo_booth demo_settings)) 2%nat
                (start_world [camera_broken 0] [])
                (snd (run_body demo_booth demo_settings 2
                        (start_world [camera_broken 0] [])))
                "OSError('usb')")
      as (w2 & E & L & _).
    + vm_compute. reflexivity.
    + exists w2. split; [exact E|]. rewrite L. reflexivity.
  - rewrite (proj1 (proj2 (proj2 (run_contains_failures demo_booth demo_settings)))
               9%nat (start_world [] [(0 # 1, Shutdown)])
               (snd (run_body demo_booth demo_settings 9
                       (start_world [] [(0 # 1, Shutdown)])))
               (SystemExit 0)).
    + reflexivity.
    + vm_compute. reflexivity.
    + right. now exists 0.
Defined.

End RunSpec.

(* ===================================================================== *)
(** * PictureList: names and numbers *)
(* ===================================================================== *)

Module PictureListNames.

Import Py PyFacts PictureList PictureListFacts PictureListSpec PictureListMore.
Open Scope string_scope.
Open Scope Z_scope.

(** ** [str] and [int] *)

Lemma int_digits_uint_acc d :
  forall acc, int_digits (Z.pos acc) (NilEmpty.string_of_uint d)
              = Some (Z.pos (Pos.of_uint_acc d acc)).
Proof.
  induction d; intros acc; cbn [NilEmpty.string_of_uint Pos.of_uint_acc];
    [reflexivity | ..];
    cbn [int_digits];
    match goal with
    | |- context [is_digit ?c] => change (is_digit c) with true; cbv iota
    end;
    match goal with
    | |- int_digits ?a _ = Some (Z.pos (Pos.of_uint_acc _ ?b)) =>
        replace a with (Z.pos b) by (unfold digit_value; cbn [N_of_ascii N_of_digits]; lia)
    end;
    apply IHd.
Qed.

Lemma int_digits_uint d :
  int_digits 0 (NilEmpty.string_of_uint d) = Some (Z.of_N (Pos.of_uint d)).
Proof.
  induction d; cbn [NilEmpty.string_of_uint Pos.of_uint];
    [reflexivity | exact IHd | ..];
    cbn [int_digits];
    match goal with
    | |- context [is_digit ?c] => change (is_digit c) with true; cbv iota
    end;
    match goal with
    | |- int_digits ?a _ = Some (Z.of_N (N.pos (Pos.of_uint_acc _ ?b))) =>
        change a with (Z.pos b)
    end;
    apply int_digits_uint_acc.
Qed.

(** [int(str(n)) == n] for a non-negative [n]. *)
Lemma int_digits_str n : 0 <= n -> int_digits 0 (str n) = Some n.
Proof.
  intros Hn. unfold str. destruct n as [|p|p]; [reflexivity | | lia].
  cbn [Z.to_int NilEmpty.string_of_int].
  rewrite int_digits_uint, DecimalPos.Unsigned.of_to. reflexivity.
Qed.

(** [str] of a non-negative number starts with a digit, and with a digit
    other than 0 unless the number is 0. *)
Lemma str_head n :
  0 <= n ->
  exists c r, str n = String c r /\ is_digit c = true /\
              (n = 0 \/ 1 <= digit_value c).
Proof.
  intros Hn. unfold str. destruct n as [|p|p]; [| | lia].
  - exists "0"%char, "". repeat split. now left.
  - cbn [Z.to_int NilEmpty.string_of_int].
    assert (Hnorm : Decimal.unorm (Pos.to_uint p) = Pos.to_uint p).
    { rewrite <- (DecimalPos.Unsigned.to_of (Pos.to_uint p)).
      now rewrite DecimalPos.Unsigned.of_to. }
    pose proof (DecimalPos.Unsigned.to_uint_nonnil p) as Hnil.
    pose proof (DecimalPos.Unsigned.to_uint_nonzero p) as Hzero.
    destruct (Pos.to_uint p) as [|d|d|d|d|d|d|d|d|d|d] eqn:E; [congruence | | ..];
      cbn [NilEmpty.string_of_uint];
      try (do 2 eexists; split; [reflexivity|]; split; [reflexivity|];
           right; cbv; discriminate).
    exfalso. unfold Decimal.unorm in Hnorm. cbn [Decimal.nzhead] in Hnorm.
    destruct (Decimal.nzhead d) eqn:Ed; try discriminate Hnorm.
    + apply Hzero. exact (eq_sym Hnorm).
    + exact (DecimalFacts.nzhead_nonzero _ _ Ed).
Qed.

Lemma pow10_length_lt (a b : nat) :
  10 ^ Z.of_nat a < 10 ^ Z.of_nat b -> (a < b)%nat.
Proof.
  intros H. apply Nat2Z.inj_lt.
  apply (Z.pow_lt_mono_r_iff 10); lia.
Qed.

(** A number below [10 ^ w] is printed with at most [w] digits, and a number
    of [10 ^ w] or more with more than [w]. *)
Lemma str_length_le n w :
  0 <= n < 10 ^ Z.of_nat w -> (1 <= w)%nat -> (String.length (str n) <= w)%nat.
Proof.
  intros [Hn Hlt] Hw.
  destruct (str_head n Hn) as (c & r & E & Hc & Hd).
  pose proof (int_digits_str n Hn) as Hv. rewrite E in Hv |- *.
  cbn [int_digits] in Hv. rewrite Hc in Hv. cbn [String.length].
  destruct Hd as [-> | Hd].
  - assert (r = "") as -> by (cbv in E; congruence). cbn. lia.
  - apply int_digits_bounds in Hv; [|lia].
    assert (10 ^ Z.of_nat (String.length r) < 10 ^ Z.of_nat w) by nia.
    apply pow10_length_lt in H. lia.
Qed.

Lemma str_length_gt n w :
  10 ^ Z.of_nat w <= n -> (w < String.length (str n))%nat.
Proof.
  intros Hge.
  assert (Hn : 0 <= n) by (pose proof (Z.pow_nonneg 10 (Z.of_nat w)); lia).
  pose proof (int_digits_str n Hn) as Hv.
  apply int_digits_bounds in Hv; [|lia].
  apply pow10_length_lt. lia.
Qed.

(** ** [zfill] *)

Lemma repeat_zero_length k : String.length (repeat_string "0" k) = k.
Proof. induction k as [|k IH]; cbn; [reflexivity | now rewrite IH]. Qed.

Lemma int_digits_zeros k s :
  int_digits 0 (repeat_string "0" k ++ s) = int_digits 0 s.
Proof. induction k as [|k IH]; [reflexivity | exact IH]. Qed.

Lemma zfill_digit_head w c r :
  is_digit c = true ->
  zfill w (String c r)
  = repeat_string "0" (w - String.length (String c r)) ++ String c r.
Proof.
  intros Hc. unfold zfill.
  destruct (Nat.leb_spec w (String.length (String c r))) as [L|L].
  - replace (w - String.length (String c r))%nat with O by lia. reflexivity.
  - destruct c as [[] [] [] [] [] [] [] []]; try discriminate Hc; reflexivity.
Qed.

Lemma zfill_str n w :
  0 <= n ->
  zfill w (str n) = repeat_string "0" (w - String.length (str n)) ++ str n.
Proof.
  intros Hn. destruct (str_head n Hn) as (c & r & E & Hc & _).
  rewrite E. now apply zfill_digit_head.
Qed.

(** [int(str(n).zfill(w)) == n]: the padding does not change the number. *)
Lemma int_digits_zfill n w : 0 <= n -> int_digits 0 (zfill w (str n)) = Some n.
Proof.
  intros Hn. rewrite zfill_str by exact Hn.
  rewrite int_digits_zeros. now apply int_digits_str.
Qed.

Lemma zfill_length n w :
  0 <= n ->
  String.length (zfill w (str n)) = Nat.max w (String.length (str n)).
Proof.
  intros Hn. rewrite zfill_str by exact Hn.
  rewrite length_app, repeat_zero_length. lia.
Qed.

(** ** Cancelling in concatenations *)

Lemma app_inv_head_str (b x y : string) : b ++ x = b ++ y -> x = y.
Proof. induction b as [|c b IH]; cbn; [auto | intros H; injection H as H; auto]. Qed.

Lemma app_inv_tail_str (s : string) :
  forall x y : string, x ++ s = y ++ s -> x = y.
Proof.
  induction x as [|c x IH]; intros [|d y] H; cbn in H.
  - reflexivity.
  - apply (f_equal String.length) in H. cbn in H. rewrite length_app in H. lia.
  - apply (f_equal String.length) in H. cbn in H. rewrite length_app in H. lia.
  - injection H as -> H. f_equal. now apply IH.
Qed.

End PictureListNames.

Module PictureListExtra.

Import Py PyFacts PictureList PictureListFacts PictureListSpec PictureListMore
       PictureListNames.
Open Scope string_scope.
Open Scope Z_scope.

(** ** What a successful [__init__] has done *)

Lemma init_ok_inv b fs self fs' :
  has_magic b = false ->
  init b fs = Ok (self, fs') ->
  exists c,
    self = {| basename := b; suffix := ".jpg"; count_width := 5; counter := c |} /\
    counter_of (glob (b ++ count_pattern ++ ".jpg") fs) = Some c /\
    (fs' = fs /\ path_exists fs (dirname b) = true \/
     fs' = {| entries := dirname b :: entries fs; read_only := read_only fs |} /\
     path_exists fs (dirname b) = false).
Proof.
  intros Hb. unfold init. fold count_pattern.
  destruct (path_exists fs (dirname b)) eqn:E; cbn [negb].
  - unfold counter_of. cbn [String.length Nat.add].
    destruct (_ =? _)%nat.
    + intros H. inversion H; subst. exists 0. auto.
    + destruct (last_item _); [|discriminate]. destruct (int _); [|discriminate].
      intros H. inversion H; subst. eexists. auto.
  - unfold makedirs. destruct (String.eqb (dirname b) ""); [discriminate|].
    destruct (read_only fs) eqn:Ero; [discriminate|].
    rewrite glob_after_makedirs by exact Hb.
    unfold counter_of. cbn [String.length Nat.add].
    destruct (_ =? _)%nat.
    + intros H. inversion H; subst. exists 0. auto.
    + destruct (last_item _); [|discriminate]. destruct (int _); [|discriminate].
      intros H. inversion H; subst. eexists. auto.
Qed.

Lemma glob_all_numbered b fs :
  has_magic b = false ->
  forall x, In x (glob (b ++ count_pattern ++ ".jpg") fs) -> exists n, numbered b n x.
Proof. intros Hb x Hx. now apply (glob_numbered b fs x Hb) in Hx. Qed.

Lemma numbered_range b n x : numbered b n x -> 0 <= n <= 99999.
Proof.
  intros (ds & L & Hn & _). apply int_digits_bounds in Hn; [|lia].
  rewrite L in Hn. change (10 ^ Z.of_nat 5) with 100000 in Hn. lia.
Qed.

Lemma get_numbered self n :
  suffix self = ".jpg" -> count_width self = 5%nat ->
  0 <= n <= 99999 ->
  numbered (basename self) n (get self n).
Proof.
  intros Hs Hw Hn.
  unfold get. rewrite Hs, Hw. exists (zfill 5 (str n)).
  split; [|split; [apply int_digits_zfill; lia | reflexivity]].
  rewrite zfill_length by lia.
  assert (String.length (str n) <= 5)%nat; [|lia].
  apply str_length_le; [|lia]. change (10 ^ Z.of_nat 5) with 100000. lia.
Qed.

(** X1 : the path [get] makes for a number from 0 to 99999 is the basename,
    the number written with exactly five digits, and ".jpg", and reading the
    number back off the path, as [__init__] does, gives the number again. *)
Theorem get_round_trip (self : PictureList) (n : Z) :
  suffix self = ".jpg" -> count_width self = 5%nat ->
  0 <= n <= 99999 ->
  numbered (basename self) n (get self n) /\
  int (slice_from_end 9 4 (get self n)) = Some n.
Proof.
  intros Hs Hw Hn.
  pose proof (get_numbered self n Hs Hw Hn) as N.
  split; [exact N | exact (numbered_int _ _ _ N)].
Qed.

Lemma get_round_trip_witness :
  int (slice_from_end 9 4
         (get {| basename := day_basename; suffix := ".jpg"; count_width := 5;
                 counter := 0 |} 42)) = Some 42.
Proof.
  apply (get_round_trip {| basename := day_basename; suffix := ".jpg";
                           count_width := 5; counter := 0 |} 42);
    [reflexivity | reflexivity | lia].
Defined.

(** X2 : from 100000 on the number takes six digits or more, and the path
    [get] makes is matched by no pattern of five digits: the [glob] of
    [__init__] never returns it, whatever the directory holds. *)
Theorem get_beyond_five_digits_is_not_globbed (self : PictureList) (n : Z)
    (fs : filesystem) :
  suffix self = ".jpg" -> count_width self = 5%nat ->
  has_magic (basename self) = false ->
  100000 <= n ->
  (5 < String.length (zfill 5 (str n)))%nat /\
  ~ In (get self n) (glob (basename self ++ count_pattern ++ ".jpg") fs).
Proof.
  intros Hs Hw Hb Hn.
  assert (L : (5 < String.length (zfill 5 (str n)))%nat).
  { rewrite zfill_length by lia.
    pose proof (str_length_gt n 5). change (10 ^ Z.of_nat 5) with 100000 in H. lia. }
  split; [exact L|]. intros Hin.
  apply glob_all_numbered in Hin; [|exact Hb]. destruct Hin as [m Hm].
  apply numbered_length in Hm. unfold get in Hm.
  rewrite Hs, Hw, !length_app in Hm. cbn [String.length] in Hm. lia.
Qed.

Lemma get_beyond_five_digits_witness :
  ~ In (get {| basename := day_basename; suffix := ".jpg"; count_width := 5;
               counter := 0 |} 100000)
       (glob (day_basename ++ count_pattern ++ ".jpg") full_fs).
Proof.
  apply (get_beyond_five_digits_is_not_globbed
           {| basename := day_basename; suffix := ".jpg"; count_width := 5;
              counter := 0 |} 100000 full_fs);
    [reflexivity | reflexivity | reflexivity | lia].
Defined.

(** ** Distinct numbers, distinct paths *)

Lemma get_inj self a b :
  0 <= a -> 0 <= b -> get self a = get self b -> a = b.
Proof.
  intros Ha Hb H. unfold get in H.
  apply app_inv_head_str, app_inv_tail_str in H.
  pose proof (int_digits_zfill a (count_width self) Ha) as Va.
  pose proof (int_digits_zfill b (count_width self) Hb) as Vb.
  rewrite H in Va. congruence.
Qed.

Lemma get_set_counter self c n : get (set_counter self c) n = get self n.
Proof. reflexivity. Qed.

Lemma next_paths_are_later ops :
  forall self x,
    In x (next_paths self ops) ->
    exists j, counter self < j /\ x = get self j.
Proof.
  induction ops as [|o ops IH]; intros self x Hx; [destruct Hx|].
  cbn [next_paths] in Hx. destruct o as [count| |]; cbn [step] in Hx.
  - now apply IH.
  - now apply IH.
  - unfold get_next in Hx. cbn [In] in Hx. destruct Hx as [<- | Hx].
    + exists (counter self + 1). cbn [counter set_counter].
      split; [lia | reflexivity].
    + apply IH in Hx. destruct Hx as (j & Hj & ->). cbn [counter set_counter] in Hj.
      exists j. split; [lia | reflexivity].
Qed.

(** X3 : [get] sends distinct non-negative numbers to distinct paths, for
    any basename, suffix and width; hence, from a counter that is not
    negative, [get_next] never hands out a path twice, whatever calls of
    [get] and [get_last] come in between. *)
Theorem get_next_never_repeats (self : PictureList) :
  (forall a b, 0 <= a -> 0 <= b -> get self a = get self b -> a = b) /\
  (0 <= counter self -> forall ops, NoDup (next_paths self ops)).
Proof.
  split; [apply get_inj|].
  intros Hc ops. revert self Hc.
  induction ops as [|o ops IH]; intros self Hc; [constructor|].
  cbn [next_paths]. destruct o as [count| |]; cbn [step]; try now apply IH.
  unfold get_next. constructor.
  - intros Hin. apply next_paths_are_later in Hin.
    destruct Hin as (j & Hj & E). cbn [counter set_counter] in Hj, E.
    rewrite !get_set_counter in E. apply get_inj in E; lia.
  - apply IH. cbn. lia.
Qed.

Lemma get_next_never_repeats_witness :
  NoDup (next_paths {| basename := day_basename; suffix := ".jpg";
                       count_width := 5; counter := 99998 |}
           [OpGetNext; OpGetLast; OpGetNext; OpGet 1; OpGetNext]).
Proof.
  apply (proj2 (get_next_never_repeats
                  {| basename := day_basename; suffix := ".jpg";
                     count_width := 5; counter := 99998 |})).
  cbn. lia.
Defined.

(** X4 : after [__init__] the counter lies between 0 and 99999; and while it
    is below 99999 the path the next [get_next] returns does not exist
    yet. *)
Theorem init_counter_range_and_fresh_next (b : string) (fs fs' : filesystem)
    (self : PictureList) :
  has_magic b = false ->
  init b fs = Ok (self, fs') ->
  0 <= counter self <= 99999 /\
  (counter self < 99999 -> ~ In (fst (get_next self)) (entries fs')).
Proof.
  intros Hb Hinit.
  destruct (init_ok_inv b fs self fs' Hb Hinit) as (c & -> & Hc & Hfs).
  destruct (counter_of_max b _ (glob_all_numbered b fs Hb)) as (c' & Hc' & Hle & Hex).
  rewrite Hc in Hc'. injection Hc' as <-.
  cbn [counter].
  assert (R : 0 <= c <= 99999).
  { destruct Hex as [[-> _] | (x & _ & Hx)]; [lia | exact (numbered_range _ _ _ Hx)]. }
  split; [exact R|]. intros Hlt Hin.
  assert (N : numbered b (c + 1) (fst (get_next {| basename := b; suffix := ".jpg";
                                                   count_width := 5; counter := c |}))).
  { apply (get_numbered {| basename := b; suffix := ".jpg"; count_width := 5;
                           counter := c + 1 |} (c + 1));
      [reflexivity | reflexivity | lia]. }
  assert (Hin0 : In (fst (get_next {| basename := b; suffix := ".jpg";
                                      count_width := 5; counter := c |}))
                    (entries fs)).
  { destruct Hfs as [[-> _] | [-> _]]; [exact Hin|].
    cbn [entries In] in Hin. destruct Hin as [E | Hin]; [|exact Hin].
    exfalso. rewrite <- E in N. exact (dirname_not_numbered _ _ N). }
  assert (c + 1 <= c); [|lia].
  refine (Hle _ (c + 1) _ N).
  apply glob_numbered; [exact Hb|]. split; [exact Hin0 | now exists (c + 1)].
Qed.

Lemma init_counter_range_witness :
  0 <= 7 <= 99999 /\
  (7 < 99999 ->
   ~ In "2016-05-01/processed00008.jpg" (entries used_fs)).
Proof.
  apply (init_counter_range_and_fresh_next day_basename used_fs used_fs
           {| basename := day_basename; suffix := ".jpg"; count_width := 5;
              counter := 7 |});
    reflexivity.
Defined.

(** X5 : once picture 99999 exists, [__init__] sets the counter to 99999 and
    the next [get_next] returns number 100000 with six digits, a path that
    [__init__] does not count: it is handed out again after every restart,
    whether it exists already or not. *)
Theorem init_at_last_five_digit_number (b : string) (fs : filesystem) :
  has_magic b = false ->
  path_exists fs (dirname b) = true \/
  (dirname b <> "" /\ read_only fs = false) ->
  In (b ++ "99999.jpg") (entries fs) ->
  exists self fs',
    init b fs = Ok (self, fs') /\
    counter self = 99999 /\
    fst (get_next self) = b ++ "100000.jpg" /\
    (forall fs2, ~ In (fst (get_next self)) (glob (b ++ count_pattern ++ ".jpg") fs2)).
Proof.
  intros Hb Hdir Hin.
  destruct (init_unfold b fs Hb Hdir) as [fs' Hinit].
  destruct (counter_of_max b _ (glob_all_numbered b fs Hb)) as (c & Hc & Hle & Hex).
  rewrite Hc in Hinit.
  assert (N9 : numbered b 99999 (b ++ "99999.jpg")) by (exists "99999"; repeat split).
  assert (G9 : In (b ++ "99999.jpg") (glob (b ++ count_pattern ++ ".jpg") fs)).
  { apply glob_numbered; [exact Hb|]. split; [exact Hin | now exists 99999]. }
  assert (c = 99999) as ->.
  { pose proof (Hle _ _ G9 N9).
    destruct Hex as [[_ E] | (x & _ & Hx)].
    - rewrite E in G9. destruct G9.
    - apply numbered_range in Hx. lia. }
  eexists. exists fs'. split; [exact Hinit|]. split; [reflexivity|].
  split; [reflexivity|]. intros fs2 H2.
  apply glob_all_numbered in H2; [|exact Hb]. destruct H2 as [m Hm].
  apply numbered_length in Hm.
  match type of Hm with
  | String.length ?t = _ => change t with (b ++ "100000.jpg") in Hm
  end.
  rewrite length_app in Hm. cbn [String.length] in Hm. lia.
Qed.

Lemma init_at_last_five_digit_number_witness :
  exists self fs',
    init day_basename full_fs = Ok (self, fs') /\
    In (fst (get_next self)) (entries full_fs).
Proof.
  destruct (init_at_last_five_digit_number day_basename full_fs)
    as (self & fs' & Hinit & _ & Hnext & _).
  - reflexivity.
  - left. reflexivity.
  - cbn. auto.
  - exists self, fs'. split; [exact Hinit|]. rewrite Hnext. cbn. auto.
Defined.

(** X6 : [__init__] fails exactly when the directory of the basename does
    not exist and cannot be created; the pictures it finds never make it
    fail. *)
Theorem init_fails_iff_no_directory (b : string) (fs : filesystem) :
  has_magic b = false ->
  ((exists e, init b fs = Err e) <->
   path_exists fs (dirname b) = false /\
   (dirname b = "" \/ read_only fs = true)).
Proof.
  intros Hb. split.
  - intros [e He].
    destruct (path_exists fs (dirname b)) eqn:E.
    + exfalso. destruct (init_unfold b fs Hb (or_introl E)) as [fs' Hinit].
      destruct (counter_of_max b _ (glob_all_numbered b fs Hb)) as (c & Hc & _).
      rewrite Hc in Hinit. congruence.
    + split; [reflexivity|].
      destruct (String.eqb_spec (dirname b) "") as [Hd|Hd]; [now left|].
      destruct (read_only fs) eqn:Ero; [now right|].
      exfalso. destruct (init_unfold b fs Hb (or_intror (conj Hd Ero))) as [fs' Hinit].
      destruct (counter_of_max b _ (glob_all_numbered b fs Hb)) as (c & Hc & _).
      rewrite Hc in Hinit. congruence.
  - intros [E Hd]. unfold init. rewrite E. cbn [negb]. unfold makedirs.
    destruct Hd as [-> | Hro].
    + cbn. eexists. reflexivity.
    + rewrite Hro. destruct (String.eqb (dirname b) ""); eexists; reflexivity.
Qed.

Lemma init_fails_iff_no_directory_witness :
  exists e, init day_basename {| entries := []; read_only := true |} = Err e.
Proof.
  apply (proj2 (init_fails_iff_no_directory day_basename
                  {| entries := []; read_only := true |} eq_refl)).
  split; [reflexivity | now right].
Defined.

Lemma no_slash_head b : Booth.no_slash b = true -> head_to_last_slash b = "".
Proof.
  induction b as [|c b IH]; [reflexivity|]. cbn [Booth.no_slash head_to_last_slash].
  intros H. apply andb_true_iff in H. destruct H as [Hc Hb].
  rewrite (IH Hb). apply negb_true_iff in Hc. now rewrite Hc.
Qed.

(** X7 : a basename without a directory part, as in [PictureList("processed")],
    makes [__init__] fail: its directory name is empty, the empty path does
    not exist, and [os.makedirs("")] raises. *)
Theorem init_fails_without_directory_part (b : string) (fs : filesystem) :
  Booth.no_slash b = true ->
  path_exists fs "" = false ->
  dirname b = "" /\ init b fs = Err (OtherException "FileNotFoundError").
Proof.
  intros Hb Hex.
  assert (D : dirname b = "").
  { unfold dirname. now rewrite (no_slash_head b Hb). }
  split; [exact D|]. unfold init. rewrite D, Hex. reflexivity.
Qed.

Lemma init_fails_without_directory_part_witness :
  init "processed" used_fs = Err (OtherException "FileNotFoundError").
Proof.
  apply (init_fails_without_directory_part "processed" used_fs); reflexivity.
Defined.

(** X8 : [__init__] keeps every path that exists and leaves the directory of
    the basename in place; run again on the file system it left, it changes
    nothing and returns the same object. *)
Theorem init_is_idempotent (b : string) (fs fs' : filesystem) (self : PictureList) :
  has_magic b = false ->
  init b fs = Ok (self, fs') ->
  path_exists fs' (dirname b) = true /\
  (forall x, In x (entries fs) -> In x (entries fs')) /\
  init b fs' = Ok (self, fs').
Proof.
  intros Hb Hinit.
  destruct (init_ok_inv b fs self fs' Hb Hinit) as (c & -> & Hc & Hfs).
  assert (P : path_exists fs' (dirname b) = true).
  { destruct Hfs as [[-> E] | [-> _]]; [exact E|].
    unfold path_exists. cbn [entries existsb]. now rewrite String.eqb_refl. }
  assert (G : glob (b ++ count_pattern ++ ".jpg") fs'
              = glob (b ++ count_pattern ++ ".jpg") fs).
  { destruct Hfs as [[-> _] | [-> _]]; [reflexivity|].
    now apply glob_after_makedirs. }
  split; [exact P|]. split.
  - intros x Hx. destruct Hfs as [[-> _] | [-> _]]; [exact Hx | now right].
  - destruct (init_unfold b fs' Hb (or_introl P)) as [fs2 H2].
    rewrite G, Hc in H2. rewrite H2. f_equal. f_equal.
    destruct (init_ok_inv b fs' _ fs2 Hb H2) as (c2 & _ & _ & [[E _] | [_ E]]);
      [exact E | congruence].
Qed.

Lemma init_is_idempotent_witness :
  init day_basename
    {| entries := day_basename :: nil; read_only := false |}
  = Ok ({| basename := day_basename; suffix := ".jpg"; count_width := 5;
           counter := 0 |},
        {| entries := ["2016-05-01"; day_basename]; read_only := false |}) /\
  init day_basename
    {| entries := ["2016-05-01"; day_basename]; read_only := false |}
  = Ok ({| basename := day_basename; suffix := ".jpg"; count_width := 5;
           counter := 0 |},
        {| entries := ["2016-05-01"; day_basename]; read_only := false |}).
Proof.
  split; [reflexivity|].
  apply (init_is_idempotent day_basename
           {| entries := day_basename :: nil; read_only := false |});
    reflexivity.
Defined.

End PictureListExtra.

Module AssembleExtra.

Import Py Assemble AssembleSpec AssembleMore.
Open Scope Z_scope.

(** X9 : on a canvas of any size whose quadrants are larger than the two
    borders together, the four pasted thumbnails are pairwise disjoint, each
    lies inside its quadrant shrunk by the borders, and so none is clipped
    by the canvas. *)
Theorem composite_layout_any_canvas (pic_size img0 img1 img2 img3 : Z * Z) :
  well_sized (thumb_size pic_size) = true ->
  forallb well_sized [img0; img1; img2; img3] = true ->
  let rects := map rect_of (pastes (assemble pic_size img0 img1 img2 img3)) in
  pairwise_disjoint rects = true /\
  forallb (fun kr => inside (snd kr) (shrunk_quadrant pic_size (fst kr)))
          (combine [0; 1; 2; 3]%nat rects) = true /\
  forallb (fun r => inside r (canvas_rect pic_size)) rects = true.
Proof.
  intros Hbox. cbn [forallb]. rewrite !andb_true_iff. intros (W0 & W1 & W2 & W3 & _).
  pose proof (thumbnail_in_box img0 _ W0 Hbox) as B0.
  pose proof (thumbnail_in_box img1 _ W1 Hbox) as B1.
  pose proof (thumbnail_in_box img2 _ W2 Hbox) as B2.
  pose proof (thumbnail_in_box img3 _ W3 Hbox) as B3.
  apply well_sized_iff in Hbox.
  cbv zeta. unfold assemble, paste0, paste1, paste2, paste3.
  revert B0 B1 B2 B3.
  generalize (thumbnail img0 (thumb_size pic_size))
             (thumbnail img1 (thumb_size pic_size))
             (thumbnail img2 (thumb_size pic_size))
             (thumbnail img3 (thumb_size pic_size)).
  intros [w0 h0] [w1 h1] [w2 h2] [w3 h3].
  destruct pic_size as [W H].
  cbv [pastes map combine forallb fst snd size offset rect_of pairwise_disjoint
       disjoint inside shrunk_quadrant canvas_rect left right top bottom
       thumb_size thumb_box inner_border outer_border Nat.odd Nat.even Nat.leb
       negb] in *.
  intros B0 B1 B2 B3.
  pose proof (Z.mul_div_le W 2 ltac:(lia)).
  pose proof (Z.mul_div_le H 2 ltac:(lia)).
  bool_to_Prop.
  repeat split; lia.
Qed.

Lemma composite_layout_any_canvas_witness :
  pairwise_disjoint
    (map rect_of (pastes (assemble (1001, 777) (4752, 3168) (100, 100)
                            (3168, 4752) (10000, 1)))) = true.
Proof.
  apply (composite_layout_any_canvas (1001, 777) (4752, 3168) (100, 100)
           (3168, 4752) (10000, 1)); reflexivity.
Defined.

Lemma thumbnail_fits_unchanged img box :
  exceeds img box = false -> thumbnail img box = img.
Proof.
  destruct img as [x y], box as [bw bh]. unfold exceeds, thumbnail. cbn [fst snd].
  intros H. apply orb_false_iff in H. destruct H as [-> ->]. reflexivity.
Qed.

Lemma thumbnail_touches_box img box :
  well_sized img = true -> well_sized box = true ->
  exceeds img box = true ->
  fst (thumbnail img box) = fst box \/ snd (thumbnail img box) = snd box.
Proof.
  destruct img as [x y], box as [bw bh]. rewrite !well_sized_iff.
  unfold exceeds. cbn [fst snd]. intros [Hx Hy] [Hbw Hbh] H.
  apply orb_true_iff in H. rewrite !Z.ltb_lt in H.
  destruct (thumbnail_cases x y bw bh)
    as [(E & A & B) | [(E & A & B) | [(E & A & B) | (E & A & B)]]];
    rewrite E; cbn [fst snd]; lia.
Qed.

(** X10 : a source image that fits into the box of the thumbnails is pasted
    in its own size, not enlarged; one that exceeds the box is scaled so
    that it takes the full width or the full height of the box, and so its
    left or its top edge in quadrant 0 is exactly [outer_border] from the
    canvas edge. *)
Theorem paste_keeps_small_and_fills_for_large (pic_size img : Z * Z) :
  well_sized (thumb_size pic_size) = true ->
  well_sized img = true ->
  (exceeds img (thumb_size pic_size) = false ->
   size (paste0 pic_size img) = img /\ size (paste1 pic_size img) = img /\
   size (paste2 pic_size img) = img /\ size (paste3 pic_size img) = img) /\
  (exceeds img (thumb_size pic_size) = true ->
   (fst (size (paste0 pic_size img)) = fst (thumb_size pic_size) \/
    snd (size (paste0 pic_size img)) = snd (thumb_size pic_size)) /\
   (left (rect_of (paste0 pic_size img)) = outer_border \/
    top (rect_of (paste0 pic_size img)) = outer_border)).
Proof.
  intros Hbox Himg. split.
  - intros H. unfold paste0, paste1, paste2, paste3. cbn [size].
    rewrite (thumbnail_fits_unchanged _ _ H). auto.
  - intros H.
    pose proof (thumbnail_touches_box img _ Himg Hbox H) as T.
    unfold paste0. cbn [size rect_of left top offset fst snd].
    split; [exact T|].
    unfold thumb_size in T |- *. cbn [fst snd] in T |- *.
    unfold outer_border, inner_border in *. lia.
Qed.

Lemma paste_keeps_small_and_fills_for_large_witness :
  size (paste0 (2352, 1568) (640, 480)) = (640, 480) /\
  (left (rect_of (paste0 (2352, 1568) native_frame)) = outer_border \/
   top (rect_of (paste0 (2352, 1568) native_frame)) = outer_border).
Proof.
  split.
  - apply (proj1 (paste_keeps_small_and_fills_for_large (2352, 1568) (640, 480)
                    eq_refl eq_refl)).
    reflexivity.
  - apply (proj2 (paste_keeps_small_and_fills_for_large (2352, 1568) native_frame
                    eq_refl eq_refl)).
    reflexivity.
Defined.

End AssembleExtra.

(* ===================================================================== *)
(** * The controller: countdowns, shutdown, events *)
(* ===================================================================== *)

Module BoothExtraFacts.

Import Py Booth BoothFacts SessionFacts BoothMore.
Open Scope string_scope.
Open Scope Z_scope.
Open Scope booth_scope.

(** ** What a computation adds to the log *)

Lemma adds_refl ok w : adds ok w w.
Proof. exists []. auto. Qed.

Lemma adds_trans ok w1 w2 w3 : adds ok w1 w2 -> adds ok w2 w3 -> adds ok w1 w3.
Proof.
  intros (l1 & L1 & F1 & V1) (l2 & L2 & F2 & V2). exists (l2 ++ l1)%list.
  rewrite L2, L1, app_assoc, forallb_app, F1, F2, V2, V1. auto.
Qed.

Lemma adds_weaken (ok ok' : effect -> bool) w w' :
  (forall e, ok e = true -> ok' e = true) -> adds ok w w' -> adds ok' w w'.
Proof.
  intros H (l & L & F & V). exists l. split; [exact L|]. split; [|exact V].
  rewrite forallb_forall in *. auto.
Qed.

Lemma adds_one ok w w' e :
  ok e = true -> log w' = e :: log w -> levels w' = levels w -> adds ok w w'.
Proof. intros He L V. exists [e]. cbn. rewrite He. auto. Qed.

Lemma only_weaken (ok ok' : effect -> bool) {A} (m : M A) :
  (forall e, ok e = true -> ok' e = true) -> only ok m -> only ok' m.
Proof. intros H Hm w. eapply adds_weaken; [exact H | apply Hm]. Qed.

Lemma only_ret ok {A} (a : A) : only ok (ret a).
Proof. intros w. apply adds_refl. Qed.

Lemma only_raise ok {A} e : only ok (@raise A e).
Proof. intros w. apply adds_refl. Qed.

Lemma only_unfinished ok {A} : only ok (@unfinished A).
Proof. intros w. apply adds_refl. Qed.

Lemma only_bind ok {A B} (m : M A) (k : A -> M B) :
  only ok m -> (forall a, only ok (k a)) -> only ok (bind m k).
Proof.
  intros Hm Hk w. unfold bind. specialize (Hm w).
  destruct (m w) as [[a|e|] w1]; cbn [snd] in *; try exact Hm.
  eapply adds_trans; [exact Hm | apply Hk].
Qed.

Lemma only_try_except ok {A} (m : M A) (h : exn -> M A) :
  only ok m -> (forall e, only ok (h e)) -> only ok (try_except m h).
Proof.
  intros Hm Hh w. unfold try_except. specialize (Hm w).
  destruct (m w) as [[a|e|] w1]; cbn [snd] in *; try exact Hm.
  eapply adds_trans; [exact Hm | apply Hh].
Qed.

Lemma only_emit ok e : ok e = true -> only ok (emit e).
Proof. intros He w. now apply adds_one with (e := e). Qed.

Lemma only_sleep ok d : ok (Sleep d) = true -> only ok (sleep d).
Proof. intros He w. now apply adds_one with (e := Sleep d). Qed.

Lemma only_time ok : only ok time.
Proof. intros w. apply adds_refl. Qed.

Lemma only_camera_call ok e : ok e = true -> only ok (camera_call e).
Proof.
  intros He w. unfold camera_call.
  destruct (fault _); now apply adds_one with (e := e).
Qed.

Lemma only_write_file ok f s : only ok (write_file f s).
Proof. intros w. exists []. auto. Qed.

Lemma only_image_open ok f : only ok (image_open f).
Proof. intros w. unfold image_open. destruct (find _ _); apply adds_refl. Qed.

Ltac only_tac :=
  repeat first
    [ apply only_ret | apply only_raise | apply only_unfinished | apply only_time
    | apply only_write_file | apply only_image_open
    | apply only_emit; reflexivity
    | apply only_sleep; reflexivity
    | apply only_camera_call; reflexivity
    | apply only_bind; [|intros ?]
    | apply only_try_except; [|intros ?]
    | match goal with
      | |- only _ (match ?x with _ => _ end) => destruct x
      | |- only _ (if ?b then _ else _) => destruct b
      end ].

Lemma only_preview_loop conf fuel :
  forall seconds tic toc,
    only countdown_effect (preview_loop conf fuel seconds tic toc).
Proof.
  induction fuel as [|fuel IH]; intros seconds tic toc; cbn [preview_loop].
  - only_tac.
  - destruct (Qlt_bool _ _); [|only_tac].
    apply only_bind; [|intros ?; apply IH].
    unfold preview_tick, display_clear, display_show_message, display_apply,
      camera_take_preview. only_tac.
Qed.

Lemma only_plain_countdown seconds l :
  only countdown_effect (plain_countdown seconds l).
Proof.
  induction l as [|i l IH]; cbn [plain_countdown]; [only_tac|].
  unfold display_clear, display_show_message, display_apply.
  do 4 (apply only_bind; [solve [only_tac] | intros ?]). exact IH.
Qed.

Lemma only_show_counter conf fuel seconds :
  only countdown_effect (show_counter conf fuel seconds).
Proof.
  unfold show_counter. destruct (has_preview conf).
  - unfold display_clear, display_apply, camera_take_preview.
    do 6 (apply only_bind; [solve [only_tac] | intros ?]). apply only_preview_loop.
  - apply only_plain_countdown.
Qed.

Lemma only_capture_attempts conf x n :
  forall fl, only shot_effect (capture_attempts conf x n fl).
Proof.
  induction n as [|n IH]; intros fl; cbn [capture_attempts]; [only_tac|].
  unfold display_clear, display_show_message, display_apply, camera_take_picture,
    pad_to_one_second.
  do 4 (apply only_bind; [solve [only_tac] | intros ?]).
  apply only_bind; [solve [only_tac]|]. intros r.
  apply only_bind; [solve [only_tac]|]. intros _.
  destruct r; [only_tac | apply IH].
Qed.

Lemma countdown_is_shot e : countdown_effect e = true -> shot_effect e = true.
Proof. destruct e; cbn; congruence. Qed.

Lemma only_take_shots self conf fuel xs :
  forall fl, only shot_effect (take_shots self conf fuel xs fl).
Proof.
  induction xs as [|x xs IH]; intros fl; cbn [take_shots]; [only_tac|].
  apply only_bind; [|intros _].
  - eapply only_weaken; [exact countdown_is_shot | apply only_show_counter].
  - apply only_bind; [apply only_capture_attempts | intros ?]. apply IH.
Qed.

Lemma captures_app' l1 l2 : captures (l1 ++ l2) = (captures l1 + captures l2)%nat.
Proof.
  induction l1 as [|e l1 IH]; [reflexivity|].
  destruct e; cbn [app captures]; rewrite IH; reflexivity.
Qed.

Lemma saves_app l1 l2 : saves (l1 ++ l2) = (saves l1 + saves l2)%nat.
Proof.
  induction l1 as [|e l1 IH]; [reflexivity|].
  destruct e; cbn [app saves]; rewrite IH; reflexivity.
Qed.

Lemma adds_shot_saves w w' : adds shot_effect w w' -> saves (log w') = saves (log w).
Proof.
  intros (l & L & F & _). rewrite L, saves_app.
  assert (saves l = 0%nat); [|lia].
  clear L. induction l as [|e l IH]; [reflexivity|].
  cbn [forallb] in F. apply andb_true_iff in F. destruct F as [He F].
  destruct e; cbn in He |- *; try discriminate; auto.
Qed.

Lemma adds_countdown_captures w w' :
  adds countdown_effect w w' -> captures (log w') = captures (log w).
Proof.
  intros (l & L & F & _). rewrite L, captures_app'.
  assert (captures l = 0%nat); [|lia].
  clear L. induction l as [|e l IH]; [reflexivity|].
  cbn [forallb] in F. apply andb_true_iff in F. destruct F as [He F].
  destruct e; cbn in He |- *; try discriminate; auto.
Qed.

Lemma adds_levels ok w w' : adds ok w w' -> levels w' = levels w.
Proof. now intros (l & _ & _ & V). Qed.

Lemma adds_captures_le ok w w' : adds ok w w' -> (captures (log w) <= captures (log w'))%nat.
Proof. intros (l & L & _). rewrite L, captures_app'. lia. Qed.

End BoothExtraFacts.

Module CountdownExtra.

Import Py Booth BoothFacts SessionFacts BoothMore BoothExtraFacts.
Open Scope string_scope.
Open Scope Z_scope.
Open Scope booth_scope.

Lemma messages_app l1 l2 : messages (l1 ++ l2) = (messages l1 ++ messages l2)%list.
Proof.
  induction l1 as [|e l1 IH]; [reflexivity|].
  destruct e; cbn [app messages]; rewrite IH; reflexivity.
Qed.

(** ** Without preview *)

Lemma plain_countdown_runs seconds l :
  forall k w,
    l = map (fun i => k + Z.of_nat i) (seq 0 (List.length l)) ->
    exists w',
      plain_countdown seconds l w = (Return tt, w') /\
      log w' = (countdown_log seconds l ++ log w)%list /\
      messages (countdown_log seconds l)
      = countdown_messages seconds k (List.length l) /\
      (now w' == now w + inject_Z (Z.of_nat (List.length l)))%Q /\
      camera w' = camera w /\ files w' = files w /\
      pending w' = pending w /\ levels w' = levels w.
Proof.
  induction l as [|i l IH]; intros k w Hl.
  - exists w. cbn. repeat split; try reflexivity. ring.
  - cbn [List.length seq map] in Hl. injection Hl as Hi Hl.
    rewrite <- seq_shift, map_map in Hl.
    assert (Hl' : l = map (fun i => (k + 1) + Z.of_nat i) (seq 0 (List.length l))).
    { rewrite Hl at 1. apply map_ext. intros a. lia. }
    destruct w as [now0 levels0 pending0 camera0 files0 log0].
    set (w1 := {| now := (now0 + 1)%Q; levels := levels0; pending := pending0;
                  camera := camera0; files := files0;
                  log := Sleep 1 :: DisplayApply ::
                         DisplayShowMessage (str (seconds - i)) ::
                         DisplayClear None :: log0 |}).
    assert (Estep : plain_countdown seconds (i :: l)
                      {| now := now0; levels := levels0; pending := pending0;
                         camera := camera0; files := files0; log := log0 |}
                    = plain_countdown seconds l w1).
    { cbn [plain_countdown].
      unfold display_clear, display_show_message, display_apply. exec. reflexivity. }
    rewrite Estep.
    destruct (IH (k + 1) w1 Hl') as (w' & E & L & Ms & T & C & F & P & V).
    exists w'. split; [exact E|]. subst w1.
    cbn [now camera files pending levels log] in *.
    split; [|split; [|split; [|auto]]].
    + rewrite L. cbn [countdown_log]. rewrite <- app_assoc. reflexivity.
    + cbn [countdown_log countdown_messages List.length].
      rewrite messages_app, Ms. cbn [messages].
      replace (k + 0) with k in Hi by lia. now subst i.
    + rewrite T. cbn [List.length]. rewrite Nat2Z.inj_succ.
      unfold Z.succ. rewrite inject_Z_plus. ring.
Qed.

Lemma range_is_seq n : range n = map (fun i => 0 + Z.of_nat i) (seq 0 (List.length (range n))).
Proof.
  unfold range. rewrite length_map, length_seq. apply map_ext. intros a. lia.
Qed.

Lemma range_length n : List.length (range n) = Z.to_nat n.
Proof. unfold range. now rewrite length_map, length_seq. Qed.

(** X11 : without preview the countdown cannot fail and does not depend on
    the camera: it shows the numbers from [seconds] down to 1, each for one
    second, and returns after [seconds] seconds (at once when [seconds] is
    not positive), leaving camera, files, event queue and outputs as they
    were. *)
Theorem plain_countdown_is_exact (conf : settings) (fuel : nat) (seconds : Z)
    (w : world) :
  has_preview conf = false ->
  exists w',
    show_counter conf fuel seconds w = (Return tt, w') /\
    log w' = (countdown_log seconds (range seconds) ++ log w)%list /\
    messages (log w')
    = (countdown_messages seconds 0 (Z.to_nat seconds) ++ messages (log w))%list /\
    (now w' == now w + inject_Z (Z.max 0 seconds))%Q /\
    camera w' = camera w /\ files w' = files w /\
    pending w' = pending w /\ levels w' = levels w.
Proof.
  intros Hp. unfold show_counter. rewrite Hp.
  destruct (plain_countdown_runs seconds (range seconds) 0 w (range_is_seq seconds))
    as (w' & E & L & Ms & T & C & F & P & V).
  exists w'. split; [exact E|]. split; [exact L|].
  rewrite range_length in *. split; [|split; [|auto]].
  - now rewrite L, messages_app, Ms.
  - rewrite T. replace (Z.of_nat (Z.to_nat seconds)) with (Z.max 0 seconds) by lia.
    reflexivity.
Qed.

Lemma plain_countdown_is_exact_witness :
  exists w',
    show_counter plain_settings 0 3 (start_world [] []) = (Return tt, w') /\
    messages (log w') = ["1"; "2"; "3"] /\
    (now w' == 3)%Q.
Proof.
  destruct (plain_countdown_is_exact plain_settings 0 3 (start_world [] []) eq_refl)
    as (w' & E & _ & Ms & T & _).
  exists w'. split; [exact E|]. split; [exact Ms|]. rewrite T. reflexivity.
Defined.

(** ** With preview, on a camera that needs a second or more per preview *)

Lemma preview_tick_sound conf seconds tic toc w s rest :
  camera w = s :: rest -> fault s = None ->
  exists w1,
    preview_tick conf seconds tic toc w
    = (Return (Qmin (toc + 1) (now w + latency s - tic)), w1) /\
    now w1 = (now w + latency s)%Q /\
    camera w1 = rest /\
    log w1 = DisplayApply :: DisplayShowMessage (str (seconds - int_of_Q toc)) ::
             DisplayShowPicture (preview_file conf) None None true ::
             CameraTakePreview (preview_file conf) :: DisplayClear None :: log w /\
    pending w1 = pending w /\ levels w1 = levels w.
Proof.
  destruct w as [now0 levels0 pending0 camera0 files0 log0].
  destruct s as [lat flt frm]. cbn [camera fault latency]. intros -> ->.
  eexists. unfold preview_tick, display_clear, display_show_message, display_apply.
  exec. split; [reflexivity|]. cbn [now camera log pending levels]. auto.
Qed.

Lemma int_of_Q_integer q k : (q == inject_Z k)%Q -> 0 <= k -> int_of_Q q = k.
Proof.
  intros E Hk. unfold int_of_Q.
  assert (H0 : Qle_bool 0 q = true).
  { apply Qle_bool_iff. rewrite E. change 0%Q with (inject_Z 0).
    now rewrite <- Zle_Qle. }
  rewrite H0. rewrite (Qfloor_comp _ _ E). apply Qfloor_Z.
Qed.

Lemma preview_loop_slow conf seconds tic rest steps :
  forall k toc w fuel,
    slow_and_sound steps ->
    List.length steps = Z.to_nat (seconds - k) ->
    0 <= k <= seconds ->
    (toc == inject_Z k)%Q -> (toc <= now w - tic)%Q ->
    camera w = (steps ++ rest)%list ->
    (List.length steps <= fuel)%nat ->
    exists w',
      preview_loop conf fuel seconds tic toc w = (Return tt, w') /\
      camera w' = rest /\
      messages (log w')
      = (countdown_messages seconds k (List.length steps) ++ messages (log w))%list /\
      (now w' == now w + total_latency steps)%Q /\
      pending w' = pending w /\ levels w' = levels w.
Proof.
  induction steps as [|s steps IH]; intros k toc w fuel Hs Hlen Hk Etoc Hinv Hcam Hfuel.
  - cbn [List.length] in Hlen. assert (k = seconds) by lia. subst k.
    assert (B : Qlt_bool toc (inject_Z seconds) = false).
    { apply Qlt_bool_false. rewrite Etoc. apply Qle_refl. }
    exists w. destruct fuel; cbn [preview_loop]; rewrite B;
      (split; [reflexivity|]); cbn [total_latency countdown_messages List.length app];
      repeat split; auto; ring.
  - cbn [List.length] in Hlen, Hfuel. destruct fuel as [|fuel]; [lia|].
    assert (Hk' : k < seconds) by lia.
    assert (B : Qlt_bool toc (inject_Z seconds) = true).
    { apply Qlt_bool_iff. rewrite Etoc. now rewrite <- Zlt_Qlt. }
    inversion Hs as [|? ? [Hf Hl] Hs']; subst.
    destruct (preview_tick_sound conf seconds tic toc w s (steps ++ rest)%list Hcam Hf)
      as (w1 & E1 & T1 & C1 & L1 & P1 & V1).
    cbn [preview_loop]. rewrite B. rewrite (bind_step _ _ _ _ _ E1).
    assert (Hle : (toc + 1 <= now w + latency s - tic)%Q) by lra.
    assert (Etoc' : (Qmin (toc + 1) (now w + latency s - tic) == inject_Z (k + 1))%Q).
    { rewrite (Q.min_l _ _ Hle). rewrite Etoc, inject_Z_plus. reflexivity. }
    destruct (IH (k + 1) (Qmin (toc + 1) (now w + latency s - tic)) w1 fuel Hs')
      as (w' & E & C & Ms & T & P & V); try lia; try assumption.
    + rewrite T1. apply Q.le_min_r.
    + exists w'. split; [exact E|]. split; [exact C|].
      split; [|split; [|split; congruence]].
      * rewrite Ms, L1. cbn [messages countdown_messages List.length].
        rewrite (int_of_Q_integer toc k Etoc ltac:(lia)).
        now rewrite <- app_assoc.
      * rewrite T, T1. cbn [total_latency]. ring.
Qed.

(** X12 : with a camera that returns every preview, and needs a second or
    more for each, the countdown with preview shows every number from
    [seconds] down to 1 exactly once, as the plain countdown does, after
    [seconds + 1] previews; it takes as long as the previews take, which is
    [seconds] seconds or more after the first. *)
Theorem slow_preview_countdown_shows_each_number (conf : settings) (fuel : nat)
    (seconds : Z) (w : world) (s0 : cam_step) (steps rest : list cam_step) :
  has_preview conf = true ->
  0 <= seconds ->
  camera w = (s0 :: steps ++ rest)%list ->
  fault s0 = None ->
  slow_and_sound steps ->
  List.length steps = Z.to_nat seconds ->
  (List.length steps <= fuel)%nat ->
  exists w',
    show_counter conf fuel seconds w = (Return tt, w') /\
    camera w' = rest /\
    messages (log w')
    = (countdown_messages seconds 0 (Z.to_nat seconds) ++ messages (log w))%list /\
    (now w' == now w + latency s0 + total_latency steps)%Q /\
    (inject_Z seconds <= total_latency steps)%Q /\
    pending w' = pending w /\ levels w' = levels w.
Proof.
  intros Hp Hsec Hcam Hf0 Hs Hlen Hfuel.
  assert (Hsum : (inject_Z seconds <= total_latency steps)%Q).
  { replace seconds with (Z.of_nat (List.length steps)) by lia.
    clear -Hs. induction Hs as [|s steps [_ Hl] _ IH].
    - apply Qle_refl.
    - cbn [List.length total_latency]. rewrite Nat2Z.inj_succ. unfold Z.succ.
      rewrite inject_Z_plus. change (inject_Z 1) with 1%Q. lra. }
  destruct w as [now0 levels0 pending0 camera0 files0 log0].
  destruct s0 as [lat0 flt0 frm0]. cbn [camera fault latency] in *. subst camera0 flt0.
  set (w1 := {| now := (now0 + lat0)%Q; levels := levels0; pending := pending0;
                camera := (steps ++ rest)%list;
                files := (preview_file conf, frm0) :: files0;
                log := DisplayApply ::
                       DisplayShowPicture (preview_file conf) None None true ::
                       CameraTakePreview (preview_file conf) ::
                       DisplayClear None :: log0 |}).
  assert (E0 : show_counter conf fuel seconds
                 {| now := now0; levels := levels0; pending := pending0;
                    camera := {| latency := lat0; fault := None; frame := frm0 |}
                              :: steps ++ rest;
                    files := files0; log := log0 |}
               = preview_loop conf fuel seconds (now w1) (now w1 - now w1) w1).
  { unfold show_counter. rewrite Hp.
    unfold display_clear, display_apply. exec. reflexivity. }
  rewrite E0.
  destruct (preview_loop_slow conf seconds (now w1) rest steps 0 (now w1 - now w1)%Q
              w1 fuel Hs)
    as (w' & E & C & Ms & T & P & V); try lia; try reflexivity.
  - change (inject_Z 0) with 0%Q. ring.
  - apply Qle_refl.
  - exists w'. split; [exact E|]. split; [exact C|].
    rewrite Hlen in Ms. split; [exact Ms|].
    split; [|split; [exact Hsum | split; assumption]].
    rewrite T. subst w1. cbn [now]. reflexivity.
Qed.

Lemma slow_preview_countdown_witness :
  exists w',
    show_counter demo_settings 3 3 (start_world slow_previews []) = (Return tt, w') /\
    messages (log w') = ["1"; "2"; "3"] /\
    camera w' = [].
Proof.
  assert (H0 : 0 <= 3) by lia.
  assert (Hs : slow_and_sound [camera_ok 1; camera_ok 1; camera_ok 1])
    by (repeat constructor; cbn; lra).
  destruct (slow_preview_countdown_shows_each_number demo_settings 3 3
              (start_world slow_previews []) (camera_ok (1 # 2))
              [camera_ok 1; camera_ok 1; camera_ok 1] []
              eq_refl H0 eq_refl eq_refl Hs eq_refl (le_n 3))
    as (w' & E & C & Ms & _).
  exists w'. split; [exact E|]. split; [exact Ms | exact C].
Defined.

End CountdownExtra.
